(** * Vinyl transfer tools: click/pop remover and RMS silence trimmer

    A shallow embedding of the two signal-analysis routines of the
    repository,

    - [detect_clicks] / [interpolate_clicks] / [process_file] of
      [audio_click_pop_remover.py], and
    - [detect_silence] / [process_file] of [audio_silence_trimmer_RMS.py],

    together with the properties of the specification that concern them,
    and of the file naming of the three tools ([convert_file] of
    [audio_format_converter.py] included) and the trimmer's ffmpeg
    arguments.

    Samples are NumPy [float32] values and times are Python [float]s
    (binary64).  Both are modelled with the IEEE-754 specification of the
    standard library ([SpecFloat]), instantiated at precision 24 / 53, so
    that the definitions below compute with the rounding of the program's
    arithmetic (round to nearest even, signed zeros, infinities and NaN
    included).  The routines of NumPy and SciPy that the program calls are
    written out after their documentation; [interp1d] is a parameter. *)

From Stdlib Require Import ZArith List Bool Lia Sorted Permutation.
From Stdlib Require Import Floats.SpecFloat.
From Stdlib Require Import Ascii FinFun.
From Stdlib Require String DecimalString DecimalNat.
Import ListNotations.

Set Implicit Arguments.

(** ** Floating-point kit *)

Definition is_nan (x : spec_float) : bool :=
  match x with S754_nan => true | _ => false end.

(** NumPy [float32]: binary32. *)
Module F32.
Definition prec : Z := 24.
Definition emax : Z := 128.
Definition t := spec_float.
Definition zero : t := S754_zero false.
Definition nan : t := S754_nan.
Definition of_Z (z : Z) : t := binary_normalize prec emax z 0 false.
Definition add : t -> t -> t := SFadd prec emax.
Definition sub : t -> t -> t := SFsub prec emax.
Definition mul : t -> t -> t := SFmul prec emax.
Definition div : t -> t -> t := SFdiv prec emax.
Definition sqrt : t -> t := SFsqrt prec emax.
Definition abs : t -> t := SFabs.
Definition ltb : t -> t -> bool := SFltb.
Definition leb : t -> t -> bool := SFleb.
(** rounding of an arbitrary float to binary32 *)
Definition round (x : spec_float) : t :=
  match x with
  | S754_finite s m e => binary_round prec emax s m e
  | _ => x
  end.
End F32.

(** Python [float]: binary64. *)
Module F64.
Definition prec : Z := 53.
Definition emax : Z := 1024.
Definition t := spec_float.
Definition zero : t := S754_zero false.
Definition of_Z (z : Z) : t := binary_normalize prec emax z 0 false.
Definition add : t -> t -> t := SFadd prec emax.
Definition sub : t -> t -> t := SFsub prec emax.
Definition mul : t -> t -> t := SFmul prec emax.
Definition div : t -> t -> t := SFdiv prec emax.
Definition ltb : t -> t -> bool := SFltb.
Definition leb : t -> t -> bool := SFleb.
Definition eqb : t -> t -> bool := SFeqb.
(** the literal [n / 10^k], e.g. [0.1], [0.5], [1.4826], [1e-10]:
    the binary64 nearest to the decimal, as the Python parser gives *)
Definition decimal (n : Z) (pow10 : Z) : t := div (of_Z n) (of_Z pow10).
(** Python's [int(x)]: truncation toward zero; [None] stands for the
    [ValueError] / [OverflowError] raised on NaN and infinities *)
Definition to_int (x : t) : option Z :=
  match x with
  | S754_zero _ => Some 0%Z
  | S754_finite s m e =>
      let a := match e with
               | Zneg p => Z.shiftr (Zpos m) (Zpos p)
               | _ => Z.shiftl (Zpos m) e
               end in
      Some (if s then Z.opp a else a)
  | _ => None
  end.
End F64.

(** ** Python and NumPy helpers *)

(** [a[i:j]] for a list and arbitrary integers [i], [j] (negative indices
    count from the end, everything is clipped to the buffer). *)
Definition py_index (n k : Z) : Z :=
  if (k <? 0)%Z then Z.max 0 (k + n) else Z.min k n.

Definition py_slice {A} (a : list A) (i j : Z) : list A :=
  let n := Z.of_nat (length a) in
  let lo := py_index n i in
  let hi := py_index n j in
  firstn (Z.to_nat (hi - lo)) (skipn (Z.to_nat lo) a).

(** [range(start, stop, step)] for [step <> 0]; the caller handles the
    [ValueError] of [step = 0]. *)
Definition py_range_len (start stop step : Z) : nat :=
  if (0 <? step)%Z then Z.to_nat ((stop - start + step - 1) / step)
  else if (step <? 0)%Z then Z.to_nat ((start - stop - step - 1) / (- step))
  else 0.

Definition py_range (start stop step : Z) : list Z :=
  map (fun k => (start + Z.of_nat k * step)%Z)
      (seq 0 (py_range_len start stop step)).

(** Sorting of samples (insertion sort on the float order). *)
Fixpoint insert_sorted (x : F32.t) (l : list F32.t) : list F32.t :=
  match l with
  | [] => [x]
  | y :: l' => if F32.leb x y then x :: l else y :: insert_sorted x l'
  end.

Definition fsort (l : list F32.t) : list F32.t :=
  fold_right insert_sorted [] l.

(** [np.median] of a float32 array: NaN for an empty array or when a NaN
    is present, the middle element of the sorted array for an odd length,
    the float32 mean of the two middle elements for an even one. *)
Definition np_median (a : list F32.t) : F32.t :=
  let n := length a in
  if existsb is_nan a then F32.nan
  else
    match n with
    | O => F32.nan
    | _ =>
        let s := fsort a in
        if Nat.odd n then nth (n / 2) s F32.zero
        else F32.div (F32.add (nth (n / 2 - 1) s F32.zero) (nth (n / 2) s F32.zero))
                     (F32.of_Z 2)
    end.

(** [np.add.reduce] of a contiguous one-dimensional float32 array.  NumPy
    sums pairwise, in float32:
<<
    pairwise_sum(a, n):
      if n < 8:       res = -0.0
                      for x in a: res += x
      elif n <= 128:  r[0..7] = a[0..7]
                      for i = 8, 16, ... < n - n % 8:
                          r[j] += a[i + j]            (j = 0..7)
                      res = ((r[0] + r[1]) + (r[2] + r[3]))
                            + ((r[4] + r[5]) + (r[6] + r[7]))
                      for x in a[n - n % 8:]: res += x
      else:           n2 = n / 2;  n2 -= n2 % 8
                      pairwise_sum(a[:n2]) + pairwise_sum(a[n2:])
>>
    and the reduction adds this to its initial value, [0.0] for an empty
    array and the identity [-0.0] otherwise.  (A reduction that starts
    from [0.0] in every case differs in one respect only: the sign of a
    sum whose terms are all [-0.0].) *)
Definition neg_zero : F32.t := S754_zero true.

Definition add_each (init : F32.t) (a : list F32.t) : F32.t :=
  fold_left F32.add a init.

(** The eight running sums after [blocks] further blocks of eight. *)
Fixpoint add_lanes (blocks : nat) (r rest : list F32.t) : list F32.t :=
  match blocks with
  | O => r
  | S blocks' =>
      add_lanes blocks'
                (map (fun p => F32.add (fst p) (snd p)) (combine r (firstn 8 rest)))
                (skipn 8 rest)
  end.

Definition sum_unrolled (a : list F32.t) : F32.t :=
  let n := length a in
  let r := add_lanes (n / 8 - 1) (firstn 8 a) (skipn 8 a) in
  let lane j := nth j r F32.zero in
  let res := F32.add (F32.add (F32.add (lane 0) (lane 1)) (F32.add (lane 2) (lane 3)))
                     (F32.add (F32.add (lane 4) (lane 5)) (F32.add (lane 6) (lane 7))) in
  add_each res (skipn (n - n mod 8) a).

(** [depth] bounds the depth of the recursion; the length of the array is
    more than enough, as each half is shorter than the whole. *)
Fixpoint pairwise_sum (depth : nat) (a : list F32.t) : F32.t :=
  let n := length a in
  if n <? 8 then add_each neg_zero a
  else if n <=? 128 then sum_unrolled a
  else
    match depth with
    | O => F32.nan
    | S depth' =>
        let n2 := n / 2 - (n / 2) mod 8 in
        F32.add (pairwise_sum depth' (firstn n2 a))
                (pairwise_sum depth' (skipn n2 a))
    end.

Definition np_sum (a : list F32.t) : F32.t :=
  F32.add (match a with [] => F32.zero | _ :: _ => neg_zero end)
          (pairwise_sum (length a) a).

(** [np.mean] of a float32 array: the float32 sum is divided by the count,
    a NumPy [intp], so the quotient is formed in float64 and converted
    back to float32 ([ret.dtype.type(ret / rcount)]); [0 / 0 = NaN] for an
    empty array.  (For two elements, as in [np_median] and [to_mono], the
    float64 quotient by 2 is exact, so that the result is the float32
    quotient [(a + b) / 2] written there.) *)
Definition np_mean (a : list F32.t) : F32.t :=
  F32.round (F64.div (np_sum a) (F64.of_Z (Z.of_nat (length a)))).

(** [scipy.signal.medfilt(volume, kernel_size)] on a one-dimensional
    array.  The kernel size must be odd (a [ValueError] otherwise, here
    [None]).  SciPy documents that the array is zero-padded: a window
    position outside the array reads as the sample 0.  Each output sample
    is the element of rank [kernel_size // 2] of the sorted window centred
    on it. *)
Definition padded_get (a : list F32.t) (k : Z) : F32.t :=
  if ((0 <=? k) && (k <? Z.of_nat (length a)))%Z
  then nth (Z.to_nat k) a F32.zero
  else F32.zero.

Definition medfilt_window (a : list F32.t) (kernel_size : Z) (i : nat) : list F32.t :=
  map (fun j => padded_get a (Z.of_nat i - kernel_size / 2 + j))
      (py_range 0 kernel_size 1).

Definition medfilt (a : list F32.t) (kernel_size : Z) : option (list F32.t) :=
  if ((kernel_size <? 1) || Z.even kernel_size)%Z then None
  else Some (map (fun i => nth (Z.to_nat (kernel_size / 2))
                               (fsort (medfilt_window a kernel_size i)) F32.zero)
                 (seq 0 (length a))).

(** ** Click detection ([AudioClickPopRemover.detect_clicks]) *)

(** The literal [1.4826]: a Python float, converted to float32 when it
    meets a float32 operand (NumPy 2 promotion), like [threshold]. *)
Definition mad_scale : F32.t := F32.round (F64.decimal 14826 10000).

(** [np.abs(audio - filtered)] *)
Fixpoint abs_diff (audio filtered : list F32.t) : list F32.t :=
  match audio, filtered with
  | a :: audio', f :: filtered' => F32.abs (F32.sub a f) :: abs_diff audio' filtered'
  | _, _ => []
  end.

Definition threshold_value_of (difference : list F32.t) (threshold : F64.t) : F32.t :=
  let median_diff := np_median difference in
  let mad := np_median (map (fun d => F32.abs (F32.sub d median_diff)) difference) in
  F32.add median_diff (F32.mul (F32.mul (F32.round threshold) mad) mad_scale).

(** [difference > threshold_value] *)
Definition outliers_of (difference : list F32.t) (threshold_value : F32.t) : list bool :=
  map (fun d => F32.ltb threshold_value d) difference.

(** The grouping loop: the state is [(clicks, in_click, click_start)]. *)
Record scan_state := mk_scan {
  clicks : list (nat * nat);
  in_click : bool;
  click_start : nat
}.

Definition scan_init : scan_state := mk_scan [] false 0.

Definition click_len (i start : nat) : Z := (Z.of_nat i - Z.of_nat start)%Z.

Definition scan_step (max_length : Z) (st : scan_state) (i : nat) (o : bool)
  : scan_state :=
  if o && negb (in_click st) then
    mk_scan (clicks st) true i
  else if negb o && in_click st then
    mk_scan (if (click_len i (click_start st) <=? max_length)%Z
             then clicks st ++ [(click_start st, i)]
             else clicks st)
            false (click_start st)
  else if in_click st && (max_length <? click_len i (click_start st))%Z then
    mk_scan (clicks st) false (click_start st)
  else st.

Fixpoint scan_from (max_length : Z) (i : nat) (outliers : list bool)
         (st : scan_state) : scan_state :=
  match outliers with
  | [] => st
  | o :: rest => scan_from max_length (S i) rest (scan_step max_length st i o)
  end.

Definition scan_finish (max_length : Z) (n : nat) (st : scan_state)
  : list (nat * nat) :=
  if in_click st then
    if (click_len n (click_start st) <=? max_length)%Z
    then clicks st ++ [(click_start st, n)]
    else clicks st
  else clicks st.

Definition group_clicks (outliers : list bool) (max_length : Z) : list (nat * nat) :=
  scan_finish max_length (length outliers)
              (scan_from max_length 0 outliers scan_init).

(** Lines 273-285: the mask of the samples exceeding the threshold. *)
Definition outlier_mask (audio : list F32.t) (window_size : Z) (threshold : F64.t)
  : option (list bool) :=
  match medfilt audio window_size with
  | None => None
  | Some filtered =>
      let difference := abs_diff audio filtered in
      let threshold_value := threshold_value_of difference threshold in
      Some (outliers_of difference threshold_value)
  end.

Definition detect_clicks (audio : list F32.t) (sample_rate : Z)
           (window_size : Z) (threshold : F64.t) (max_length : Z)
  : option (list (nat * nat)) :=
  match outlier_mask audio window_size threshold with
  | None => None
  | Some outliers => Some (group_clicks outliers max_length)
  end.

(** ** Click correction ([AudioClickPopRemover.interpolate_clicks]) *)

Inductive interp_kind := Cubic | Linear.

(** NumPy's [corrected[start:stop] = values] for a one-dimensional
    buffer: the slice is clipped to the buffer; [values] must have the
    length of the slice or length 1 (broadcast); otherwise a
    [ValueError] is raised ([None]) and the buffer is left as it was. *)
Definition slice_assign (corrected : list F32.t) (start stop : nat)
           (values : list F32.t) : option (list F32.t) :=
  let n := length corrected in
  let lo := Nat.min start n in
  let m := Nat.min stop n - lo in
  if Nat.eqb (length values) m then
    Some (firstn lo corrected ++ values ++ skipn (lo + m) corrected)
  else if Nat.eqb (length values) 1 then
    Some (firstn lo corrected ++ repeat (hd F32.zero values) m
                 ++ skipn (lo + m) corrected)
  else None.

Definition context : nat := 5.

(** [x_points]: [range(pre_start, start)] and [range(end, post_end)] with
    [pre_start = max(0, start - context)], [post_end = min(len, end + context)]. *)
Definition x_points (n : nat) (click : nat * nat) : list nat :=
  let (start, stop) := click in
  let pre_start := start - context in
  let post_end := Nat.min n (stop + context) in
  seq pre_start (start - pre_start) ++ seq stop (post_end - stop).

Definition y_points (audio : list F32.t) (click : nat * nat) : list F32.t :=
  let (start, stop) := click in
  let pre_start := start - context in
  let post_end := Nat.min (length audio) (stop + context) in
  py_slice audio (Z.of_nat pre_start) (Z.of_nat start)
  ++ py_slice audio (Z.of_nat stop) (Z.of_nat post_end).

Section Corrector.

(** [scipy.interpolate.interp1d(x, y, kind=..., fill_value='extrapolate')]
    evaluated at [x_interp]: the library routine is a parameter of the
    development.  It delivers the values as they are stored in the
    float32 buffer; [None] stands for any exception raised while the
    interpolator is built or evaluated. *)
Variable interp1d :
  interp_kind -> list nat -> list F32.t -> list nat -> option (list F32.t).

(** One [try] block: build the interpolator, evaluate it on
    [range(start, end)], store the values. *)
Definition try_fit (kind : interp_kind) (audio corrected : list F32.t)
           (click : nat * nat) : option (list F32.t) :=
  match interp1d kind (x_points (length audio) click) (y_points audio click)
                 (seq (fst click) (snd click - fst click)) with
  | None => None
  | Some values => slice_assign corrected (fst click) (snd click) values
  end.

(** The body of the [for start, end in clicks] loop. *)
Definition interpolate_one (audio corrected : list F32.t)
           (click : nat * nat) : list F32.t :=
  if length (x_points (length audio) click) <? 2 then corrected
  else
    match try_fit Cubic audio corrected click with
    | Some c => c
    | None =>
        match try_fit Linear audio corrected click with
        | Some c => c
        | None => corrected
        end
    end.

Definition interpolate_clicks (audio : list F32.t) (clicks : list (nat * nat))
  : list F32.t :=
  fold_left (interpolate_one audio) clicks audio.

End Corrector.

(** ** File names and ffmpeg arguments

    A Python [str] is a list of characters. *)

Module Lit.
Import String.
Local Open Scope string_scope.

Definition original : list ascii := list_ascii_of_string "original".
Definition declick : list ascii := list_ascii_of_string "_declick".
Definition trimmed : list ascii := list_ascii_of_string "_trimmed".
Definition mp3 : list ascii := list_ascii_of_string ".mp3".
Definition wav : list ascii := list_ascii_of_string ".wav".
Definition flac : list ascii := list_ascii_of_string ".flac".

End Lit.

(** [a == b] on strings. *)
Fixpoint str_eqb (a b : list ascii) : bool :=
  match a, b with
  | [], [] => true
  | x :: a', y :: b' => Ascii.eqb x y && str_eqb a' b'
  | _, _ => false
  end.

(** [str(n)] for a non-negative [int]: decimal digits, no leading zero. *)
Definition str (n : nat) : list ascii :=
  String.list_ascii_of_string
    (DecimalString.NilEmpty.string_of_uint (Nat.to_uint n)).

(** [s.rfind(c)]: the highest index of [c] in [s], [-1] when there is
    none. *)
Fixpoint rfind_from (c : ascii) (s : list ascii) (i last : Z) : Z :=
  match s with
  | [] => last
  | x :: s' => rfind_from c s' (i + 1) (if Ascii.eqb x c then i else last)
  end.

Definition rfind (c : ascii) (s : list ascii) : Z := rfind_from c s 0 (-1).

(** [s.endswith(suffix)] *)
Definition endswith (s suffix : list ascii) : bool :=
  (length suffix <=? length s)
  && str_eqb (skipn (length s - length suffix) s) suffix.

(** [pathlib]'s [suffix] and [stem] of a final path component [name]:
<<
    i = name.rfind('.')
    if 0 < i < len(name) - 1: return name[i:]   # stem: name[:i]
    else:                     return ''         # stem: name
>> *)
Definition splits_at_dot (name : list ascii) : bool :=
  let i := rfind "." name in
  ((0 <? i) && (i <? Z.of_nat (length name) - 1))%Z.

Definition path_suffix (name : list ascii) : list ascii :=
  if splits_at_dot name
  then py_slice name (rfind "." name) (Z.of_nat (length name))
  else [].

Definition path_stem (name : list ascii) : list ascii :=
  if splits_at_dot name then py_slice name 0 (rfind "." name) else name.

(** *** Output names of the click remover and of the trimmer

    Both [process_file]s name the file they write (when the originals are
    kept) [f"{file_path.stem}<tag>{output_ext}"], where [output_ext] is the
    suffix of the input when the output format is ["original"], and both
    [process_files] drop the files whose stem ends with the tag before
    they start. *)
Definition output_ext_of (output_format file_name : list ascii) : list ascii :=
  if str_eqb output_format Lit.original then path_suffix file_name
  else output_format.

Definition tagged_output_name (tag output_format file_name : list ascii)
  : list ascii :=
  path_stem file_name ++ tag ++ output_ext_of output_format file_name.

Definition not_yet_processed (tag : list ascii) (files : list (list ascii))
  : list (list ascii) :=
  filter (fun f => negb (endswith (path_stem f) tag)) files.

Definition declick_output_name := tagged_output_name Lit.declick.
Definition declick_input_files := not_yet_processed Lit.declick.
Definition trimmed_output_name := tagged_output_name Lit.trimmed.
Definition trimmed_input_files := not_yet_processed Lit.trimmed.

(** *** The trimmer's ffmpeg arguments *)

Module Trimmer.





End Trimmer.

(** *** The format converter *)

Module Converter.

Section ConvertFile.

(** [(output_dir / name).exists()] at the time of the call. *)
Variable path_exists : list ascii -> bool.

(** [f"{file_path.stem}_{counter}{output_ext}"] *)
Definition numbered_name (stem output_ext : list ascii) (counter : nat)
  : list ascii :=
  stem ++ ["_" % char] ++ str counter ++ output_ext.

(** The loop [while output_path.exists(): ...], from the state
    [(output_path, counter)]; [fuel] bounds the number of tests. *)
Fixpoint free_name (fuel : nat) (stem output_ext output_path : list ascii)
         (counter : nat) : option (list ascii * nat) :=
  match fuel with
  | 0 => None
  | S fuel' =>
      if path_exists output_path
      then free_name fuel' stem output_ext
                     (numbered_name stem output_ext counter) (S counter)
      else Some (output_path, counter)
  end.

(** The name [convert_file] writes to, and the final [counter] (the
    note "File exists, saving as" is logged when it exceeds 1). *)
Definition output_path (fuel : nat) (stem output_ext : list ascii)
  : option (list ascii * nat) :=
  free_name fuel stem output_ext (stem ++ output_ext) 1.

End ConvertFile.

End Converter.

(** ** The click remover's [process_file] *)

Inductive audio_data :=
| Mono (a : list F32.t)
| Stereo (frames : list (F32.t * F32.t)).

Inductive log_line :=
| LogProcessing
| LogInvalidParameters
| LogWindowRange
| LogAdjustedWindow (w : Z)
| LogLoading
| LogFormat (sample_rate : Z) (stereo : bool)
| LogDuration
| LogChannel (left : bool)
| LogDetecting
| LogDetected (n : nat)
| LogSaving
| LogSaved
| LogReplaced
| LogReplaceError
| LogCompleted (total_clicks : nat)
| LogError.

(** [s.lower()], on the letters A to Z. *)
Definition lower_char (c : ascii) : ascii :=
  let n := nat_of_ascii c in
  if (65 <=? n) && (n <=? 90) then ascii_of_nat (n + 32) else c.

Definition lower (s : list ascii) : list ascii := map lower_char s.

(** The [subtype] argument of [sf.write]: 24-bit PCM for [.flac] and
    [.wav], the default of the library otherwise ([None]). *)
Inductive subtype := PCM_24.

Definition write_subtype (output_ext : list ascii) : option subtype :=
  if str_eqb (lower output_ext) Lit.flac then Some PCM_24
  else if str_eqb (lower output_ext) Lit.wav then Some PCM_24
  else None.

(** The outcome of replacing the original by the temporary file: [unlink]
    and [rename] succeed; they fail and the handler returns; or the
    handler raises too. *)
Inductive replace_result := Replaced | ReplaceFailed | CleanupFailed.

(** What the save stage (lines 438-482) is given and what it meets
    outside the program.  [sf_write subtype audio sample_rate] tells
    whether the call [sf.write(output_path, audio, sample_rate, ...)]
    returns ([false]: it raises).  The file it produces holds the
    library's encoding of the float32 buffer, 24-bit PCM for [.wav] and
    [.flac], and not the float32 samples themselves; its contents are not
    part of this model. *)
Record save_env := mk_save_env {
  output_ext : list ascii;      (* after the substitution of "original" *)
  overwrite_originals : bool;
  mkdir_ok : bool;              (* [output_subdir.mkdir(...)] returns *)
  sf_write : option subtype -> audio_data -> Z -> bool;
  replace_original : replace_result
}.

(** Parameter validation: [None] is the early [return]. *)
Definition validate_window (window_size : Z) : list log_line * option Z :=
  if ((window_size <? 3) || (25 <? window_size))%Z then ([LogWindowRange], None)
  else if (window_size mod 2 =? 0)%Z
       then ([LogAdjustedWindow (window_size + 1)], Some (window_size + 1)%Z)
       else ([], Some window_size).

Section ProcessFile.

Variable interp1d :
  interp_kind -> list nat -> list F32.t -> list nat -> option (list F32.t).

(** Detection and correction of the loaded buffer, channel by channel.
    [None] is an exception escaping to the outer handler. *)
Definition declick (audio : audio_data) (sample_rate window_size : Z)
           (threshold : F64.t) (max_length : Z)
  : option (list log_line * audio_data * nat) :=
  match audio with
  | Stereo frames =>
      let left := map fst frames in
      match detect_clicks left sample_rate window_size threshold max_length with
      | None => None
      | Some clicks_left =>
          let left' := interpolate_clicks interp1d left clicks_left in
          let right := map snd frames in
          match detect_clicks right sample_rate window_size threshold max_length with
          | None => None
          | Some clicks_right =>
              let right' := interpolate_clicks interp1d right clicks_right in
              Some ([LogChannel true; LogDetected (length clicks_left);
                     LogChannel false; LogDetected (length clicks_right)],
                    Stereo (combine left' right'),
                    length clicks_left + length clicks_right)
          end
      end
  | Mono a =>
      match detect_clicks a sample_rate window_size threshold max_length with
      | None => None
      | Some clicks =>
          Some ([LogDetecting; LogDetected (length clicks)],
                Mono (interpolate_clicks interp1d a clicks),
                length clicks)
      end
  end.

(** The save stage: the log lines and the buffer passed to [sf.write]
    ([None] when the call is not reached). *)
Definition save_stage (env : save_env) (audio : audio_data) (sample_rate : Z)
           (total_clicks : nat) : list log_line * option audio_data :=
  if negb (overwrite_originals env) && negb (mkdir_ok env) then ([LogError], None)
  else if sf_write env (write_subtype (output_ext env)) audio sample_rate then
    if overwrite_originals env then
      match replace_original env with
      | Replaced =>
          ([LogSaving; LogSaved; LogReplaced; LogCompleted total_clicks], Some audio)
      | ReplaceFailed =>
          ([LogSaving; LogSaved; LogReplaceError; LogCompleted total_clicks], Some audio)
      | CleanupFailed =>
          ([LogSaving; LogSaved; LogReplaceError; LogError], Some audio)
      end
    else ([LogSaving; LogSaved; LogCompleted total_clicks], Some audio)
  else ([LogSaving; LogError], Some audio).

(** [params] is the result of parsing the three text fields ([None]: a
    [ValueError]); [file] is what [sf.read] delivers ([None]: it
    raises).  The result is the log and the float32 buffer passed to
    [sf.write], [None] when that call is not reached.  [LogError] is the
    outer handler ("Error processing file"), [LogCompleted] one of the two
    "Completed!" lines. *)
Definition process_file (env : save_env) (params : option (Z * F64.t * Z))
           (file : option (audio_data * Z))
  : list log_line * option audio_data :=
  match params with
  | None => ([LogProcessing; LogInvalidParameters], None)
  | Some (window_size, threshold, max_length) =>
      match validate_window window_size with
      | (msgs, None) => (LogProcessing :: msgs, None)
      | (msgs, Some window_size') =>
          match file with
          | None => (LogProcessing :: msgs ++ [LogLoading; LogError], None)
          | Some (audio, sample_rate) =>
              let is_stereo := match audio with Stereo _ => true | Mono _ => false end in
              let head := LogProcessing :: msgs
                            ++ [LogLoading; LogFormat sample_rate is_stereo] in
              if (sample_rate =? 0)%Z then (head ++ [LogError], None)
              else
                match declick audio sample_rate window_size' threshold max_length with
                | None => (head ++ [LogDuration; LogError], None)
                | Some (msgs', audio', total_clicks) =>
                    let (saved, written) := save_stage env audio' sample_rate total_clicks in
                    (head ++ LogDuration :: msgs' ++ saved, written)
                end
          end
      end
  end.

End ProcessFile.

(** ** Silence trimmer ([AudioSilenceTrimmer.detect_silence]) *)

Definition bind {A B} (x : option A) (f : A -> option B) : option B :=
  match x with Some a => f a | None => None end.

Notation "x <- e ;; k" := (bind e (fun x => k))
  (at level 61, e at next level, right associativity).

(** [range(start, stop, step)] with the [ValueError] of a zero step. *)
Definition py_range_chk (start stop step : Z) : option (list Z) :=
  if (step =? 0)%Z then None else Some (py_range start stop step).

Definition half : F64.t := F64.decimal 5 10.
Definition tenth : F64.t := F64.decimal 1 10.

(** [i / sample_rate] on Python integers *)
Definition seconds (i sample_rate : Z) : F64.t :=
  F64.div (F64.of_Z i) (F64.of_Z sample_rate).

(** [np.mean(audio, axis=1)] *)
Definition to_mono (d : audio_data) : list F32.t :=
  match d with
  | Mono a => a
  | Stereo frames =>
      map (fun f => F32.div (F32.add (fst f) (snd f)) (F32.of_Z 2))
          frames
  end.

(** [np.sqrt(np.mean(frame ** 2))] *)
Definition rms (frame : list F32.t) : F32.t :=
  F32.sqrt (np_mean (map (fun x => F32.mul x x) frame)).


(** [abs(frame_rms - overall_rms) / overall_rms] *)
Definition distance_ratio (frame : list F32.t) (overall_rms : F32.t) : F32.t :=
  F32.div (F32.abs (F32.sub (rms frame) overall_rms)) overall_rms.

Definition threshold_multiplier : F32.t := F32.round half.

(** [len(frame) < size * 0.5] *)
Definition too_small (frame : list F32.t) (size : Z) : bool :=
  F64.ltb (F64.of_Z (Z.of_nat (length frame))) (F64.mul (F64.of_Z size) half).

Definition frame_at (audio : list F32.t) (size i : Z) : list F32.t :=
  py_slice audio i (i + size).

Definition frame_close (audio : list F32.t) (overall_rms : F32.t) (size i : Z) : bool :=
  F32.leb (distance_ratio (frame_at audio size i) overall_rms) threshold_multiplier.

(** The common body of the four scanning loops: the index of the first
    frame, in the order of [indices], that is close enough to the overall
    loudness; a frame that is too small ends the scan. *)
Fixpoint first_close (audio : list F32.t) (overall_rms : F32.t) (size : Z)
         (indices : list Z) : option Z :=
  match indices with
  | [] => None
  | i :: rest =>
      if too_small (frame_at audio size i) size then None
      else if frame_close audio overall_rms size i then Some i
      else first_close audio overall_rms size rest
  end.

Section Phases.

Variable audio : list F32.t.
Variable sample_rate : Z.

Let n : Z := Z.of_nat (length audio).
Let overall_rms : F32.t := rms audio.

Definition total_length : F64.t := seconds n sample_rate.

(** [len(audio) / sample_rate] raises [ZeroDivisionError] for a zero rate. *)
Definition total_length_chk : option F64.t :=
  if (sample_rate =? 0)%Z then None else Some total_length.

Definition coarse_samples : option Z :=
  F64.to_int (F64.mul half (F64.of_Z sample_rate)).

Definition fine_samples : option Z :=
  F64.to_int (F64.mul tenth (F64.of_Z sample_rate)).

(** Phase 1 *)
Definition coarse_start_scan (coarse : Z) : option (option Z) :=
  indices <- py_range_chk 0 n coarse ;;
  Some (first_close audio overall_rms coarse indices).

Definition track_start_coarse (coarse : Z) : option F64.t :=
  found <- coarse_start_scan coarse ;;
  Some (match found with
        | Some i => seconds i sample_rate
        | None => F64.zero
        end).

(** Phase 2 *)
Definition fine_start_scan (coarse fine : Z) (start_coarse : F64.t)
  : option (option Z) :=
  k <- F64.to_int (F64.mul start_coarse (F64.of_Z sample_rate)) ;;
  let start_sample := Z.max 0 (k - coarse) in
  indices <- py_range_chk start_sample (Z.min (start_sample + coarse * 2) n) fine ;;
  Some (first_close audio overall_rms fine indices).

Definition track_start_fine (coarse fine : Z) (start_coarse : F64.t)
  : option F64.t :=
  found <- fine_start_scan coarse fine start_coarse ;;
  Some (match found with
        | Some i => seconds i sample_rate
        | None => start_coarse
        end).

(** Phase 3 *)
Definition coarse_end_scan (coarse : Z) : option (option Z) :=
  indices <- py_range_chk (n - coarse) 0 (- coarse) ;;
  Some (first_close audio overall_rms coarse indices).

Definition track_end_coarse (coarse : Z) : option F64.t :=
  found <- coarse_end_scan coarse ;;
  Some (match found with
        | Some i => seconds (i + coarse) sample_rate
        | None => total_length
        end).

(** Phase 4 *)
Definition fine_end_scan (coarse fine : Z) (end_coarse : F64.t)
  : option (option Z) :=
  k <- F64.to_int (F64.mul end_coarse (F64.of_Z sample_rate)) ;;
  let end_sample := Z.min n (k + coarse) in
  indices <- py_range_chk (end_sample - fine)
                          (Z.max (end_sample - coarse * 2) 0) (- fine) ;;
  Some (first_close audio overall_rms fine indices).

Definition track_end_fine (coarse fine : Z) (end_coarse : F64.t)
  : option F64.t :=
  found <- fine_end_scan coarse fine end_coarse ;;
  Some (match found with
        | Some i => seconds (i + fine) sample_rate
        | None => end_coarse
        end).

(** The [try] body after loading: [None] is an exception. *)
Definition detect_silence_body : option (F64.t * F64.t * F64.t) :=
  total <- total_length_chk ;;
  coarse <- coarse_samples ;;
  start_coarse <- track_start_coarse coarse ;;
  fine <- fine_samples ;;
  track_start <- track_start_fine coarse fine start_coarse ;;
  end_coarse <- track_end_coarse coarse ;;
  track_end <- track_end_fine coarse fine end_coarse ;;
  Some (track_start, track_end, total).

End Phases.

(** [detect_silence] on the decoded file: the handler turns every
    exception into [(None, None, 0)]. *)
Definition detect_silence (file : audio_data) (sample_rate : Z)
  : option F64.t * option F64.t * F64.t :=
  match detect_silence_body (to_mono file) sample_rate with
  | Some (track_start, track_end, total) => (Some track_start, Some track_end, total)
  | None => (None, None, F64.zero)
  end.

(** The trimmer's [process_file], up to the decision to trim. *)
Inductive trim_decision :=
| SkippedNoDetection
| SkippedInvalidDuration (duration : F64.t)
| Trim (track_start duration : F64.t).

Definition trim_plan (file : audio_data) (sample_rate : Z) : trim_decision :=
  match detect_silence file sample_rate with
  | (Some track_start, Some track_end, _) =>
      let duration := F64.sub track_end track_start in
      if F64.leb duration F64.zero then SkippedInvalidDuration duration
      else Trim track_start duration
  | _ => SkippedNoDetection
  end.


(** ** Vocabulary of the properties *)

(** Sample [i] lies in the half-open region [r = (start, end)]. *)
Definition inside (i : nat) (r : nat * nat) : Prop := fst r <= i < snd r.

Definition all_outliers (outliers : list bool) (r : nat * nat) : Prop :=
  forall k, inside k r -> nth k outliers false = true.

(** The invariant of a ClickRegion of the data model. *)
Definition valid_region (n : nat) (max_length : Z) (r : nat * nat) : Prop :=
  fst r < snd r /\ snd r <= n /\ (click_len (snd r) (fst r) <= max_length)%Z.

Definition separated (a b : nat * nat) : Prop := snd a < fst b.

(** [outliers[s:e]] is a maximal run of consecutive outliers. *)
Definition maximal_run (outliers : list bool) (s e : nat) : bool :=
  (s <? e) && (e <=? length outliers)
  && forallb (fun k => nth k outliers false) (seq s (e - s))
  && negb ((0 <? s) && nth (s - 1) outliers false)
  && negb (nth e outliers false).

(** The invariant of the grouping loop at the head of iteration
    [length seen], [seen] being the part of the mask already read. *)
Definition scan_inv (max_length : Z) (seen : list bool) (st : scan_state) : Prop :=
  Forall (fun r => valid_region (length seen) max_length r
                   /\ snd r < length seen
                   /\ all_outliers seen r) (clicks st)
  /\ StronglySorted separated (clicks st)
  /\ (in_click st = true ->
      click_start st < length seen
      /\ all_outliers seen (click_start st, length seen)
      /\ Forall (fun r => snd r < click_start st) (clicks st)).

(** A float that is not negative: a zero, a finite number or an infinity
    with a clear sign bit, or a NaN. *)
Definition nonneg_float (x : spec_float) : Prop :=
  match x with
  | S754_zero s | S754_infinity s | S754_finite s _ _ => s = false
  | S754_nan => True
  end.

(** What a scan of [indices] may deliver: nothing, or one of the indices,
    whose frame satisfies the criterion. *)
Definition found_at (audio : list F32.t) (size : Z) (indices : list Z)
           (found : option Z) : Prop :=
  match found with
  | None => True
  | Some i => In i indices /\ frame_close audio (rms audio) size i = true
  end.

(** ** The specification's wording, for comparison *)

(** [s] is in ascending order. *)
Definition ascending (s : list F32.t) : Prop :=
  Sorted (fun x y => F32.leb x y = true) s.

(** [m] is a median of the data [d]: the middle element of the data
    rearranged in ascending order, the float32 mean of the two middle
    elements for an even count; NaN when there is no data or a NaN in
    it. *)
Definition is_median (d : list F32.t) (m : F32.t) : Prop :=
  if existsb is_nan d || (length d =? 0) then m = F32.nan
  else exists s,
      Permutation d s /\ ascending s
      /\ m = if Nat.odd (length d) then nth (length d / 2) s F32.zero
             else F32.div (F32.add (nth (length d / 2 - 1) s F32.zero)
                                   (nth (length d / 2) s F32.zero))
                          (F32.of_Z 2).




(** ** Inputs of the examples *)

(** Sample buffers written in quarters: [samples [0; 2; -2; 3]] is the
    float32 buffer [0.0, 0.5, -0.5, 0.75]. *)
Definition samples (l : list Z) : list F32.t :=
  map (fun z => F32.div (F32.of_Z z) (F32.of_Z 4)) l.

(** Silence with a burst of eight samples alternating between 0.5 and
    -0.5. *)
Definition burst_signal : list F32.t :=
  samples (repeat 0 10 ++ [2; -2; 2; -2; 2; -2; 2; -2] ++ repeat 0 10)%Z.


(** 1.8 s at 10 Hz: isolated samples of 0.5 after one second of silence. *)
Definition crossing_signal : list F32.t :=
  samples [0;0;0;0;0; 0;0;0;0;0; 2;0;0;2;2; 2;0;0]%Z.

(** 1.5 s at 10 Hz, overall RMS 0.25: one sample of 0.25 near the start,
    a louder tail 0.75, 0.5, 0.25. *)
Definition fine_only_signal : list F32.t :=
  samples [0;1;0;0;0; 0;0;0;0;0; 3;2;1;0;0]%Z.


Definition three_samples : list F32.t := samples [1; 3; 2]%Z.


(** A noise floor of a quarter or so with three spikes, at 7, 16 and 21. *)
Definition noisy_signal : list F32.t :=
  samples [0; 1; 3; 2; 6; 3; 4; 20; 5; 3; 1; 4; 0; 2; 5; 1; -16; 2; 4; 3; 5; 12; 3]%Z.


Definition three : F64.t := F64.of_Z 3.
Definition five : F64.t := F64.of_Z 5.
Definition four : F64.t := F64.of_Z 4.

(** Stand-ins for the library in the examples.  The first refuses a cubic
    fit on fewer than four support points and a linear fit on fewer than
    two, and otherwise holds the first support value; the second always
    raises. *)
Definition sample_interp1d (kind : interp_kind) (x : list nat) (y : list F32.t)
           (x_new : list nat) : option (list F32.t) :=
  let need := match kind with Cubic => 4 | Linear => 2 end in
  if negb (length x =? length y) || (length x <? need) then None
  else Some (map (fun _ => hd F32.zero y) x_new).

Definition failing_interp1d (kind : interp_kind) (x : list nat) (y : list F32.t)
           (x_new : list nat) : option (list F32.t) := None.

(** Save stages for the examples: the originals are kept, the output is
    [.wav], and [sf.write] returns in the first and raises in the second. *)
Definition wav_output : save_env :=
  mk_save_env Lit.wav false true (fun _ _ _ => true) Replaced.

Definition failing_write : save_env :=
  mk_save_env Lit.wav false true (fun _ _ _ => false) Replaced.

(** ** Vocabulary of the further properties *)

(** The channels of a decoded file, as the buffers [process_file] hands
    to the detector. *)
Definition channels (d : audio_data) : list (list F32.t) :=
  match d with
  | Mono a => [a]
  | Stereo frames => [map fst frames; map snd frames]
  end.

Definition same_layout (d1 d2 : audio_data) : Prop :=
  match d1, d2 with
  | Mono _, Mono _ | Stereo _, Stereo _ => True
  | _, _ => False
  end.

(** Where the grouping loop stands, at the head of iteration [i], with
    respect to a run [s, e) that it is going to report. *)
Definition run_progress (s e i : nat) (st : scan_state) : Prop :=
  (i = s -> in_click st = false)
  /\ (s < i <= e -> in_click st = true /\ click_start st = s)
  /\ (e < i -> In (s, e) (clicks st)).

(** A file extension: a period followed by at least one character, none
    of them a period. *)
Definition dotless (s : list ascii) : bool :=
  forallb (fun c => negb (Ascii.eqb c ".")) s.

Definition is_extension (ext : list ascii) : bool :=
  match ext with
  | c :: e => Ascii.eqb c "." && negb (length e =? 0) && dotless e
  | [] => false
  end.

(** The names [convert_file] tries, in order: [stem.ext], [stem_1.ext],
    [stem_2.ext], ... *)
Definition candidate (stem output_ext : list ascii) (j : nat) : list ascii :=
  match j with
  | 0 => stem ++ output_ext
  | S _ => Converter.numbered_name stem output_ext j
  end.

(** A directory given by the list of its entries. *)
Definition listed (dir : list (list ascii)) (name : list ascii) : bool :=
  existsb (str_eqb name) dir.

(** Example names. *)
Module Names.
Import String.
Local Open Scope string_scope.

Definition side_a : list ascii := list_ascii_of_string "side_a".
Definition side_a_wav : list ascii := list_ascii_of_string "side_a.wav".
Definition dot_wav : list ascii := list_ascii_of_string ".wav".
Definition live_1974_wav : list ascii := list_ascii_of_string "live.1974.wav".
Definition side_a_mp3 : list ascii := list_ascii_of_string "side_a.mp3".
Definition side_a_1_mp3 : list ascii := list_ascii_of_string "side_a_1.mp3".
Definition side_b_mp3 : list ascii := list_ascii_of_string "side_b.mp3".

End Names.

(** * Proofs *)

(** ** The grouping loop *)

Lemma all_outliers_app (seen : list bool) (o : bool) (r : nat * nat) :
  snd r <= length seen -> all_outliers seen r -> all_outliers (seen ++ [o]) r.
Proof.
  intros Hle H k Hk. unfold inside in Hk.
  rewrite app_nth1 by lia. apply H. exact Hk.
Qed.

Lemma all_outliers_extend (seen : list bool) (start : nat) :
  all_outliers seen (start, length seen) ->
  all_outliers (seen ++ [true]) (start, S (length seen)).
Proof.
  intros H k Hk. unfold inside in Hk. simpl in Hk.
  destruct (Nat.eq_dec k (length seen)) as [-> | Hne].
  - rewrite app_nth2 by lia. rewrite Nat.sub_diag. reflexivity.
  - rewrite app_nth1 by lia. apply H. unfold inside. simpl. lia.
Qed.

Lemma sorted_snoc (l : list (nat * nat)) (r : nat * nat) :
  StronglySorted separated l ->
  Forall (fun a => separated a r) l ->
  StronglySorted separated (l ++ [r]).
Proof.
  induction 1 as [| a l Hs IH Ha]; intros Hall; simpl.
  - constructor; constructor.
  - inversion Hall; subst. constructor.
    + apply IH. assumption.
    + apply Forall_app. split; [assumption | constructor; [assumption | constructor]].
Qed.

Lemma regions_weaken (max_length : Z) (seen : list bool) (o : bool)
      (l : list (nat * nat)) :
  Forall (fun r => valid_region (length seen) max_length r
                   /\ snd r < length seen /\ all_outliers seen r) l ->
  Forall (fun r => valid_region (length (seen ++ [o])) max_length r
                   /\ snd r < length (seen ++ [o])
                   /\ all_outliers (seen ++ [o]) r) l.
Proof.
  apply Forall_impl. intros r (Hv & Hlt & Hall).
  rewrite length_app. simpl. unfold valid_region in *.
  repeat split; try lia.
  apply all_outliers_app; [lia | assumption].
Qed.

Ltac split_inv := unfold scan_inv; simpl; split; [| split].

Lemma scan_step_inv (max_length : Z) (seen : list bool) (st : scan_state) (o : bool) :
  scan_inv max_length seen st ->
  scan_inv max_length (seen ++ [o]) (scan_step max_length st (length seen) o).
Proof.
  intros (Hregions & Hsorted & Hopen).
  pose proof (regions_weaken o Hregions) as Hregions'.
  assert (Hlen : length (seen ++ [o]) = S (length seen))
    by (rewrite length_app; simpl; lia).
  unfold scan_step.
  destruct o, (in_click st) eqn:Hin; simpl.
  - (* an outlier inside an open click *)
    destruct Hopen as (Hstart & Hrun & Hbefore); [reflexivity |].
    destruct (max_length <? click_len (length seen) (click_start st))%Z.
    + split_inv; try assumption. discriminate.
    + split_inv; try assumption. intros _. rewrite Hlen.
      split; [lia | split; [| assumption]].
      apply all_outliers_extend. assumption.
  - (* an outlier opens a click *)
    split_inv; try assumption. intros _. rewrite Hlen.
    split; [lia | split].
    + intros k Hk. unfold inside in Hk. simpl in Hk.
      assert (k = length seen) by lia. subst k.
      rewrite app_nth2 by lia. rewrite Nat.sub_diag. reflexivity.
    + revert Hregions. apply Forall_impl. intros r (_ & Hlt & _). exact Hlt.
  - (* a clean sample closes the click *)
    destruct Hopen as (Hstart & Hrun & Hbefore); [reflexivity |].
    destruct (click_len (length seen) (click_start st) <=? max_length)%Z eqn:Hfit;
      split_inv; try assumption; try discriminate.
    + apply Forall_app. split; [assumption |].
      constructor; [| constructor]. rewrite Hlen.
      unfold valid_region. simpl. apply Z.leb_le in Hfit.
      split; [lia | split; [lia |]].
      apply all_outliers_app; [simpl; lia | assumption].
    + apply sorted_snoc; [assumption |].
      revert Hbefore. apply Forall_impl. intros r Hr. unfold separated. simpl. exact Hr.
  - (* a clean sample outside a click *)
    split_inv; try assumption. rewrite Hin. discriminate.
Qed.

Lemma scan_from_inv (max_length : Z) (rest seen : list bool) (st : scan_state) :
  scan_inv max_length seen st ->
  scan_inv max_length (seen ++ rest)
           (scan_from max_length (length seen) rest st).
Proof.
  revert seen st. induction rest as [| o rest IH]; intros seen st Hinv; simpl.
  - rewrite app_nil_r. exact Hinv.
  - replace (seen ++ o :: rest) with ((seen ++ [o]) ++ rest)
      by (rewrite <- app_assoc; reflexivity).
    replace (S (length seen)) with (length (seen ++ [o]))
      by (rewrite length_app; simpl; lia).
    apply IH. apply scan_step_inv. exact Hinv.
Qed.

Lemma scan_init_inv (max_length : Z) : scan_inv max_length [] scan_init.
Proof.
  split_inv; [constructor | constructor | discriminate].
Qed.

(** Every region delivered by the loop is a well-formed ClickRegion made of
    outliers only, and the regions are ascending and pairwise separated. *)
Lemma group_clicks_sound (outliers : list bool) (max_length : Z) :
  Forall (fun r => valid_region (length outliers) max_length r
                   /\ all_outliers outliers r)
         (group_clicks outliers max_length)
  /\ StronglySorted separated (group_clicks outliers max_length).
Proof.
  unfold group_clicks, scan_finish.
  destruct (scan_from_inv outliers (scan_init_inv max_length))
    as (Hregions & Hsorted & Hopen).
  simpl in *.
  set (st := scan_from max_length 0 outliers scan_init) in *.
  assert (Hbase :
    Forall (fun r => valid_region (length outliers) max_length r
                     /\ all_outliers outliers r) (clicks st)).
  { revert Hregions. apply Forall_impl. intros r (Hv & _ & Hall). split; assumption. }
  destruct (in_click st); [| split; assumption].
  destruct Hopen as (Hstart & Hrun & Hbefore); [reflexivity |].
  destruct (click_len (length outliers) (click_start st) <=? max_length)%Z eqn:Hfit;
    [| split; assumption].
  apply Z.leb_le in Hfit. split.
  - apply Forall_app. split; [assumption |].
    constructor; [| constructor]. split; [| assumption].
    unfold valid_region. simpl. lia.
  - apply sorted_snoc; [assumption |].
    revert Hbefore. apply Forall_impl. intros r Hr. exact Hr.
Qed.

(** ** Detection *)

Lemma medfilt_some (audio : list F32.t) (window_size : Z) :
  (1 <= window_size)%Z -> Z.odd window_size = true ->
  medfilt audio window_size =
  Some (map (fun i => nth (Z.to_nat (window_size / 2))
                          (fsort (medfilt_window audio window_size i)) F32.zero)
            (seq 0 (length audio))).
Proof.
  intros Hpos Hodd. unfold medfilt.
  replace (window_size <? 1)%Z with false by (symmetry; apply Z.ltb_ge; lia).
  rewrite <- Z.negb_odd, Hodd. reflexivity.
Qed.

Lemma medfilt_length (audio filtered : list F32.t) (window_size : Z) :
  medfilt audio window_size = Some filtered -> length filtered = length audio.
Proof.
  unfold medfilt.
  destruct ((window_size <? 1)%Z || Z.even window_size); [discriminate |].
  intros H. injection H as <-. rewrite length_map, length_seq. reflexivity.
Qed.

Lemma abs_diff_length (audio filtered : list F32.t) :
  length filtered = length audio -> length (abs_diff audio filtered) = length audio.
Proof.
  revert filtered. induction audio as [| a audio IH]; intros [| f filtered] H;
    simpl in *; try discriminate; try reflexivity.
  f_equal. apply IH. lia.
Qed.

Lemma abs_diff_nth (audio filtered : list F32.t) (i : nat) :
  length filtered = length audio -> i < length audio ->
  nth i (abs_diff audio filtered) F32.zero
  = F32.abs (F32.sub (nth i audio F32.zero) (nth i filtered F32.zero)).
Proof.
  revert filtered i. induction audio as [| a audio IH]; intros [| f filtered] i H Hi;
    simpl in *; try discriminate; try lia.
  destruct i as [| i]; [reflexivity |]. apply IH; lia.
Qed.

Lemma outliers_of_length (difference : list F32.t) (tv : F32.t) :
  length (outliers_of difference tv) = length difference.
Proof. apply length_map. Qed.

Lemma outliers_of_nth (difference : list F32.t) (tv : F32.t) (i : nat) :
  i < length difference ->
  nth i (outliers_of difference tv) false = F32.ltb tv (nth i difference F32.zero).
Proof.
  intros Hi. unfold outliers_of.
  rewrite (nth_indep _ false (F32.ltb tv F32.zero)) by (rewrite length_map; exact Hi).
  apply (map_nth (fun d => F32.ltb tv d)).
Qed.




Lemma detect_clicks_some (audio : list F32.t) (sample_rate window_size : Z)
      (threshold : F64.t) (max_length : Z) (filtered : list F32.t) :
  medfilt audio window_size = Some filtered ->
  detect_clicks audio sample_rate window_size threshold max_length
  = Some (group_clicks
            (outliers_of (abs_diff audio filtered)
                         (threshold_value_of (abs_diff audio filtered) threshold))
            max_length).
Proof.
  intros H. unfold detect_clicks, outlier_mask. rewrite H. reflexivity.
Qed.

Lemma mad_scale_value : mad_scale = S754_finite false 12436950 (-23).
Proof. vm_compute. reflexivity. Qed.

(** C10.  The region list returned by [detect_clicks] does not depend on
    the sample rate: two calls on the same samples, window size, threshold
    multiplier and maximal click length return the same list whatever the
    two sample rates are. *)
Theorem detect_clicks_sample_rate_irrelevant
        (audio : list F32.t) (rate1 rate2 window_size : Z)
        (threshold : F64.t) (max_length : Z) :
  detect_clicks audio rate1 window_size threshold max_length
  = detect_clicks audio rate2 window_size threshold max_length.
Proof.
  unfold detect_clicks. reflexivity.
Qed.

(** C1.  The stated property fails on the code.  With the Light preset
    (window 7, threshold 5.0, maximal click length 5) the burst of eight
    alternating samples (0.5, -0.5, ...) at indices 10..17 is one maximal
    run of eight outliers, longer than the maximal click length.  When the
    run has grown past the limit the loop leaves the click, the next
    outlier of the same run opens a new one, and the tail [(17, 18)] of
    the run is returned as a region. *)
Theorem detect_clicks_long_run_tail :
  outlier_mask burst_signal 7 five
  = Some (repeat false 10 ++ repeat true 8 ++ repeat false 10)
  /\ maximal_run (repeat false 10 ++ repeat true 8 ++ repeat false 10) 10 18 = true
  /\ (5 < click_len 18 10)%Z
  /\ detect_clicks burst_signal 44100 7 five 5 = Some [(17, 18)]
  /\ inside 17 (17, 18) /\ inside 17 (10, 18).
Proof.
  repeat split; try (vm_compute; reflexivity); unfold inside; simpl; lia.
Qed.

(** *** The median *)

Lemma SFcompare_swap (x y : spec_float) :
  SFcompare y x = option_map CompOpp (SFcompare x y).
Proof.
  destruct x as [sx | sx | | sx mx ex], y as [sy | sy | | sy my ey]; simpl;
    try reflexivity;
    try (destruct sx; reflexivity); try (destruct sy; reflexivity);
    try (destruct sx, sy; reflexivity).
  destruct sx, sy; simpl; try reflexivity;
    rewrite (Z.compare_antisym ex ey); destruct (ex ?= ey)%Z; simpl; try reflexivity.
  all: fold (Pos.compare mx my); fold (Pos.compare my mx);
    rewrite (Pos.compare_antisym mx my).
  all: destruct (mx ?= my)%positive; reflexivity.
Qed.

(** On floats other than NaN the order is total. *)
Lemma leb_total (x y : F32.t) :
  is_nan x = false -> is_nan y = false -> F32.leb x y = false -> F32.leb y x = true.
Proof.
  intros Hx Hy. unfold F32.leb, SFleb. rewrite (SFcompare_swap x y).
  destruct x as [sx | sx | | sx mx ex], y as [sy | sy | | sy my ey]; try discriminate.
  all: destruct (SFcompare _ _) as [[ | | ] | ] eqn:E; simpl; try discriminate;
    try reflexivity.
  all: simpl in E; try discriminate E.
Qed.

Lemma insert_sorted_perm (x : F32.t) (l : list F32.t) :
  Permutation (x :: l) (insert_sorted x l).
Proof.
  induction l as [| y l IH]; simpl; [apply Permutation_refl |].
  destruct (F32.leb x y); [apply Permutation_refl |].
  apply perm_trans with (y :: x :: l); [apply perm_swap |].
  apply perm_skip. exact IH.
Qed.

Lemma fsort_perm (l : list F32.t) : Permutation l (fsort l).
Proof.
  induction l as [| x l IH]; simpl; [apply perm_nil |].
  apply perm_trans with (x :: fsort l); [apply perm_skip; exact IH |].
  apply insert_sorted_perm.
Qed.

Lemma insert_sorted_ascending (x : F32.t) (l : list F32.t) :
  is_nan x = false -> Forall (fun y => is_nan y = false) l ->
  ascending l -> ascending (insert_sorted x l).
Proof.
  unfold ascending. intros Hx Hl Hs.
  induction l as [| y l IH]; simpl; [repeat constructor |].
  inversion Hl as [| ? ? Hy Hl']; subst. inversion Hs as [| ? ? Hs' Hhd]; subst.
  destruct (F32.leb x y) eqn:Hxy.
  - constructor; [exact Hs | constructor; exact Hxy].
  - constructor; [apply IH; assumption |].
    destruct l as [| z l]; simpl.
    + constructor. apply leb_total; assumption.
    + destruct (F32.leb x z).
      * constructor. apply leb_total; assumption.
      * constructor. inversion Hhd; subst. assumption.
Qed.

Lemma fsort_ascending (l : list F32.t) :
  existsb is_nan l = false -> ascending (fsort l).
Proof.
  intros Hnan.
  assert (Hall : Forall (fun y => is_nan y = false) l).
  { apply Forall_forall. intros y Hy.
    destruct (is_nan y) eqn:E; [| reflexivity].
    assert (existsb is_nan l = true) by (apply existsb_exists; exists y; auto).
    congruence. }
  clear Hnan. induction Hall as [| x l Hx Hl IH]; simpl; [constructor |].
  apply insert_sorted_ascending; [exact Hx | | exact IH].
  apply Forall_forall. intros y Hy.
  apply (Permutation_in _ (Permutation_sym (fsort_perm l))) in Hy.
  rewrite Forall_forall in Hl. apply Hl. exact Hy.
Qed.

(** [np_median] computes a median. *)
Lemma np_median_is_median (d : list F32.t) : is_median d (np_median d).
Proof.
  unfold is_median, np_median.
  destruct (existsb is_nan d) eqn:Hnan; [reflexivity |].
  destruct d as [| x d]; [reflexivity |].
  change (length (x :: d) =? 0) with false. cbv iota. simpl orb. cbv iota.
  exists (fsort (x :: d)).
  split; [apply fsort_perm |]. split; [apply fsort_ascending; exact Hnan |].
  reflexivity.
Qed.

(** C5.  For an odd window size the detector computes
    [difference[i] = |audio[i] - filtered[i]|], a median of [difference],
    the MAD (a median of the absolute deviations from that median) and the
    threshold [median + threshold * MAD * c] in float32, where [c], the
    float32 nearest to 1.4826, is 12436950 / 2^23; a sample is marked
    exactly when its difference is strictly above the threshold, the list
    returned is the grouping of that mask, and every sample of every
    returned region is strictly above the threshold. *)
Theorem detect_clicks_threshold_rule
        (audio : list F32.t) (sample_rate window_size : Z)
        (threshold : F64.t) (max_length : Z) :
  (1 <= window_size)%Z -> Z.odd window_size = true ->
  exists filtered median_diff mad,
    medfilt audio window_size = Some filtered
    /\ let difference := abs_diff audio filtered in
       let deviations := map (fun d => F32.abs (F32.sub d median_diff)) difference in
       let scale := S754_finite false 12436950 (-23) in
       let threshold_value :=
         F32.add median_diff (F32.mul (F32.mul (F32.round threshold) mad) scale) in
       let mask := map (fun d => F32.ltb threshold_value d) difference in
       length difference = length audio
       /\ (forall i, i < length audio ->
             nth i difference F32.zero
             = F32.abs (F32.sub (nth i audio F32.zero) (nth i filtered F32.zero)))
       /\ is_median difference median_diff
       /\ is_median deviations mad
       /\ mad_scale = scale
       /\ (2 * Z.abs (12436950 * 10000 - 14826 * 2 ^ 23) <= 10000)%Z
       /\ outlier_mask audio window_size threshold = Some mask
       /\ (forall i, i < length audio ->
             nth i mask false = true
             <-> F32.ltb threshold_value (nth i difference F32.zero) = true)
       /\ detect_clicks audio sample_rate window_size threshold max_length
          = Some (group_clicks mask max_length)
       /\ (forall r i, In r (group_clicks mask max_length) -> inside i r ->
             i < length audio
             /\ F32.ltb threshold_value (nth i difference F32.zero) = true).
Proof.
  intros Hpos Hodd.
  pose proof (medfilt_some audio Hpos Hodd) as Hmed.
  set (filtered := map _ _) in Hmed.
  set (difference := abs_diff audio filtered).
  exists filtered, (np_median difference),
    (np_median (map (fun d => F32.abs (F32.sub d (np_median difference))) difference)).
  split; [exact Hmed |].
  pose proof (medfilt_length _ _ Hmed) as Hlen.
  pose proof (abs_diff_length audio filtered Hlen) as Hdlen.
  fold difference in Hdlen. cbv zeta. fold difference.
  rewrite <- mad_scale_value.
  change (F32.add (np_median difference)
            (F32.mul
               (F32.mul (F32.round threshold)
                  (np_median
                     (map (fun d => F32.abs (F32.sub d (np_median difference)))
                          difference)))
               mad_scale))
    with (threshold_value_of difference threshold).
  set (threshold_value := threshold_value_of difference threshold).
  change (map (fun d => F32.ltb threshold_value d) difference)
    with (outliers_of difference threshold_value).
  assert (Hmask : outlier_mask audio window_size threshold
                  = Some (outliers_of difference threshold_value))
    by (unfold outlier_mask; rewrite Hmed; reflexivity).
  split; [exact Hdlen |].
  split; [intros i Hi; apply abs_diff_nth; assumption |].
  split; [apply np_median_is_median |].
  split; [apply np_median_is_median |].
  split; [reflexivity |].
  split; [vm_compute; discriminate |].
  split; [exact Hmask |].
  split; [intros i Hi; rewrite outliers_of_nth by lia; reflexivity |].
  split; [unfold detect_clicks; rewrite Hmask; reflexivity |].
  intros r i Hr Hi.
  destruct (group_clicks_sound (outliers_of difference threshold_value) max_length)
    as (Hall & _).
  rewrite Forall_forall in Hall. destruct (Hall r Hr) as (Hvalid & Hout).
  destruct Hvalid as (_ & Hend & _).
  rewrite outliers_of_length, Hdlen in Hend.
  assert (Hlt : i < length audio) by (unfold inside in Hi; lia).
  split; [exact Hlt |].
  rewrite <- outliers_of_nth by lia. apply Hout. exact Hi.
Qed.

Lemma detect_clicks_threshold_rule_witness :
  (exists filtered median_diff mad,
      medfilt noisy_signal 3 = Some filtered
      /\ let difference := abs_diff noisy_signal filtered in
         let deviations := map (fun d => F32.abs (F32.sub d median_diff)) difference in
         let scale := S754_finite false 12436950 (-23) in
         let threshold_value :=
           F32.add median_diff (F32.mul (F32.mul (F32.round three) mad) scale) in
         let mask := map (fun d => F32.ltb threshold_value d) difference in
         length difference = length noisy_signal
         /\ (forall i, i < length noisy_signal ->
               nth i difference F32.zero
               = F32.abs (F32.sub (nth i noisy_signal F32.zero) (nth i filtered F32.zero)))
         /\ is_median difference median_diff
         /\ is_median deviations mad
         /\ mad_scale = scale
         /\ (2 * Z.abs (12436950 * 10000 - 14826 * 2 ^ 23) <= 10000)%Z
         /\ outlier_mask noisy_signal 3 three = Some mask
         /\ (forall i, i < length noisy_signal ->
               nth i mask false = true
               <-> F32.ltb threshold_value (nth i difference F32.zero) = true)
         /\ detect_clicks noisy_signal 44100 3 three 5
            = Some (group_clicks mask 5)
         /\ (forall r i, In r (group_clicks mask 5) -> inside i r ->
               i < length noisy_signal
               /\ F32.ltb threshold_value (nth i difference F32.zero) = true))
  /\ detect_clicks noisy_signal 44100 3 three 5 = Some [(7, 8); (16, 17); (21, 22)]
  /\ detect_clicks noisy_signal 44100 3 five 5 = Some [(7, 8); (16, 17)].
Proof.
  split.
  - apply (@detect_clicks_threshold_rule noisy_signal 44100 3 three 5).
    + lia.
    + reflexivity.
  - split; vm_compute; reflexivity.
Defined.




(** ** Correction *)

Lemma splice_length {A} (c values : list A) (lo m : nat) :
  length values = m -> lo + m <= length c ->
  length (firstn lo c ++ values ++ skipn (lo + m) c) = length c.
Proof.
  intros Hv Hle. rewrite !length_app, length_firstn, length_skipn. lia.
Qed.

Lemma splice_outside {A} (c values : list A) (lo m i : nat) :
  length values = m -> lo + m <= length c ->
  i < lo \/ lo + m <= i ->
  nth_error (firstn lo c ++ values ++ skipn (lo + m) c) i = nth_error c i.
Proof.
  intros Hv Hle [Hi | Hi].
  - rewrite nth_error_app1 by (rewrite length_firstn; lia).
    rewrite nth_error_firstn.
    replace (i <? lo) with true by (symmetry; apply Nat.ltb_lt; exact Hi).
    reflexivity.
  - rewrite nth_error_app2 by (rewrite length_firstn; lia).
    rewrite length_firstn, Nat.min_l by lia.
    rewrite nth_error_app2 by lia.
    rewrite nth_error_skipn. f_equal. lia.
Qed.

Lemma slice_bounds (n start stop : nat) :
  let lo := Nat.min start n in
  let m := Nat.min stop n - lo in
  lo + m <= n
  /\ forall i, ~ (start <= i < stop) -> i < n -> i < lo \/ lo + m <= i.
Proof.
  cbv zeta. split; [lia |]. intros i Hi Hn. lia.
Qed.

Lemma slice_assign_frame (c c' values : list F32.t) (start stop : nat) :
  slice_assign c start stop values = Some c' ->
  length c' = length c
  /\ forall i, ~ inside i (start, stop) -> nth_error c' i = nth_error c i.
Proof.
  unfold slice_assign, inside. simpl.
  destruct (slice_bounds (length c) start stop) as (Hle & Hout).
  set (lo := Nat.min start (length c)) in *.
  set (m := Nat.min stop (length c) - lo) in *.
  assert (Hframe : forall v : list F32.t, length v = m ->
            length (firstn lo c ++ v ++ skipn (lo + m) c) = length c
            /\ forall i, ~ (start <= i < stop) ->
                 nth_error (firstn lo c ++ v ++ skipn (lo + m) c) i = nth_error c i).
  { intros v Hv. split; [apply splice_length; assumption |].
    intros i Hi. destruct (Nat.lt_ge_cases i (length c)) as [Hn | Hn].
    - apply splice_outside; try assumption. apply Hout; assumption.
    - transitivity (@None F32.t); [| symmetry]; apply nth_error_None;
        [rewrite splice_length by assumption |]; exact Hn. }
  destruct (Nat.eqb (length values) m) eqn:Hlen.
  - intros H. injection H as <-. apply Hframe. apply Nat.eqb_eq. exact Hlen.
  - destruct (Nat.eqb (length values) 1); [| discriminate].
    intros H. injection H as <-. apply Hframe. apply repeat_length.
Qed.

Section CorrectorFacts.

Variable interp1d :
  interp_kind -> list nat -> list F32.t -> list nat -> option (list F32.t).

Lemma try_fit_frame (kind : interp_kind) (audio c c' : list F32.t) (r : nat * nat) :
  try_fit interp1d kind audio c r = Some c' ->
  length c' = length c
  /\ forall i, ~ inside i r -> nth_error c' i = nth_error c i.
Proof.
  unfold try_fit. destruct (interp1d _ _ _ _); [| discriminate].
  destruct r as (start, stop). apply slice_assign_frame.
Qed.

Lemma interpolate_one_frame (audio c : list F32.t) (r : nat * nat) :
  length (interpolate_one interp1d audio c r) = length c
  /\ forall i, ~ inside i r ->
       nth_error (interpolate_one interp1d audio c r) i = nth_error c i.
Proof.
  unfold interpolate_one.
  destruct (length (x_points (length audio) r) <? 2); [split; reflexivity |].
  destruct (try_fit interp1d Cubic audio c r) eqn:Hcubic.
  - apply (try_fit_frame _ _ _ _ Hcubic).
  - destruct (try_fit interp1d Linear audio c r) eqn:Hlinear.
    + apply (try_fit_frame _ _ _ _ Hlinear).
    + split; reflexivity.
Qed.

Lemma fold_interpolate_frame (audio : list F32.t) (regions : list (nat * nat))
      (c : list F32.t) :
  length (fold_left (interpolate_one interp1d audio) regions c) = length c
  /\ forall i, (forall r, In r regions -> ~ inside i r) ->
       nth_error (fold_left (interpolate_one interp1d audio) regions c) i
       = nth_error c i.
Proof.
  revert c. induction regions as [| r regions IH]; intros c; simpl.
  - split; reflexivity.
  - destruct (IH (interpolate_one interp1d audio c r)) as (Hlen & Hnth).
    destruct (interpolate_one_frame audio c r) as (Hlen1 & Hnth1).
    split; [congruence |].
    intros i Hi. rewrite Hnth by (intros r' Hr'; apply Hi; right; exact Hr').
    apply Hnth1. apply Hi. left. reflexivity.
Qed.

Lemma interpolate_clicks_app (audio : list F32.t) (before after : list (nat * nat)) :
  interpolate_clicks interp1d audio (before ++ after)
  = fold_left (interpolate_one interp1d audio) after
              (interpolate_clicks interp1d audio before).
Proof. unfold interpolate_clicks. apply fold_left_app. Qed.

(** C2.  The buffer returned by [interpolate_clicks] has the length of
    the input and holds the input's sample at every index that lies in
    none of the regions of the list. *)
Theorem interpolate_clicks_locality
        (audio : list F32.t) (regions : list (nat * nat)) (i : nat) :
  (forall r, In r regions -> ~ inside i r) ->
  length (interpolate_clicks interp1d audio regions) = length audio
  /\ nth_error (interpolate_clicks interp1d audio regions) i = nth_error audio i.
Proof.
  intros Hi. unfold interpolate_clicks.
  destruct (fold_interpolate_frame audio regions audio) as (Hlen & Hnth).
  split; [exact Hlen | apply Hnth; exact Hi].
Qed.

(** C7.  Whatever the regions before and after it, a region is handled
    by a chain that never stops the loop: with fewer than two support
    points the buffer is left as it is; otherwise the cubic fit is
    stored when it succeeds; when it fails, the linear fit over the same
    support points is stored; when that fails too the buffer is left as
    it is.  In every case the remaining regions are then processed and a
    buffer of the input's length is returned. *)
Theorem interpolate_clicks_degradation
        (audio : list F32.t) (before after : list (nat * nat)) (r : nat * nat) :
  let c := interpolate_clicks interp1d audio before in
  let out := interpolate_clicks interp1d audio (before ++ r :: after) in
  let continue := fold_left (interpolate_one interp1d audio) after in
  let support := x_points (length audio) r in
  let fit kind := interp1d kind support (y_points audio r)
                           (seq (fst r) (snd r - fst r)) in
  let store values := slice_assign c (fst r) (snd r) values in
  length out = length audio
  /\ (length support < 2 -> out = continue c)
  /\ (2 <= length support ->
      forall c', bind (fit Cubic) store = Some c' -> out = continue c')
  /\ (2 <= length support -> bind (fit Cubic) store = None ->
      forall c', bind (fit Linear) store = Some c' -> out = continue c')
  /\ (2 <= length support -> bind (fit Cubic) store = None ->
      bind (fit Linear) store = None -> out = continue c).
Proof.
  cbv zeta. rewrite interpolate_clicks_app. simpl.
  set (c := interpolate_clicks interp1d audio before).
  split.
  - destruct (fold_interpolate_frame audio after (interpolate_one interp1d audio c r))
      as (Hlen & _).
    rewrite Hlen. destruct (interpolate_one_frame audio c r) as (Hlen1 & _).
    rewrite Hlen1. unfold c, interpolate_clicks.
    apply (fold_interpolate_frame audio before audio).
  - assert (Hfit : forall kind,
              try_fit interp1d kind audio c r
              = bind (interp1d kind (x_points (length audio) r) (y_points audio r)
                               (seq (fst r) (snd r - fst r)))
                     (fun values => slice_assign c (fst r) (snd r) values)).
    { intros kind. unfold try_fit, bind. reflexivity. }
    unfold interpolate_one. rewrite !Hfit.
    repeat split.
    + intros Hfew. apply Nat.ltb_lt in Hfew. rewrite Hfew. reflexivity.
    + intros Hge c' Hc. apply Nat.ltb_ge in Hge. rewrite Hge, Hc. reflexivity.
    + intros Hge Hcubic c' Hl. apply Nat.ltb_ge in Hge.
      rewrite Hge, Hcubic, Hl. reflexivity.
    + intros Hge Hcubic Hl. apply Nat.ltb_ge in Hge.
      rewrite Hge, Hcubic, Hl. reflexivity.
Qed.

End CorrectorFacts.

Lemma interpolate_clicks_locality_witness :
  length (interpolate_clicks sample_interp1d burst_signal [(17, 18)])
  = length burst_signal
  /\ nth_error (interpolate_clicks sample_interp1d burst_signal [(17, 18)]) 3
     = nth_error burst_signal 3.
Proof.
  apply (@interpolate_clicks_locality sample_interp1d burst_signal [(17, 18)] 3).
  intros r [<- | []]. unfold inside. simpl. lia.
Defined.

Lemma interpolate_clicks_degradation_witness :
  (* too few support points: the only sample of a one-sample buffer *)
  interpolate_clicks sample_interp1d (samples [3%Z]) ([] ++ (0, 1) :: [])
  = samples [3%Z]
  (* the cubic fit succeeds *)
  /\ interpolate_clicks sample_interp1d burst_signal ([] ++ (17, 18) :: [])
     = firstn 17 burst_signal ++ samples [2%Z] ++ skipn 18 burst_signal
  (* two support points: the cubic fit fails, the linear one is stored *)
  /\ interpolate_clicks sample_interp1d three_samples ([] ++ (1, 2) :: [])
     = samples [1; 1; 2]%Z
  (* both fits fail *)
  /\ interpolate_clicks failing_interp1d three_samples ([] ++ (1, 2) :: [])
     = three_samples.
Proof.
  split; [| split; [| split]].
  - apply (proj1 (proj2 (@interpolate_clicks_degradation
                           sample_interp1d (samples [3%Z]) [] [] (0, 1)))).
    simpl. lia.
  - refine (proj1 (proj2 (proj2 (@interpolate_clicks_degradation
              sample_interp1d burst_signal [] [] (17, 18)))) _
              (firstn 17 burst_signal ++ samples [2%Z] ++ skipn 18 burst_signal) _).
    + simpl. lia.
    + vm_compute. reflexivity.
  - refine (proj1 (proj2 (proj2 (proj2 (@interpolate_clicks_degradation
              sample_interp1d three_samples [] [] (1, 2))))) _ _
              (samples [1; 1; 2]%Z) _).
    + simpl. lia.
    + vm_compute. reflexivity.
    + vm_compute. reflexivity.
  - refine (proj2 (proj2 (proj2 (proj2 (@interpolate_clicks_degradation
              failing_interp1d three_samples [] [] (1, 2))))) _ _ _).
    + simpl. lia.
    + reflexivity.
    + reflexivity.
Defined.

(** ** Parameter validation in [process_file] *)

Lemma even_mod2 (w : Z) : (w mod 2 =? 0)%Z = Z.even w.
Proof. symmetry. apply Zeven_mod. Qed.

(** C8, as the code has it.  An even window size between 3 and 25 is
    replaced by the next odd value, which a log line reports, and the file
    is processed exactly as with that odd value.  A window size below 3 or
    above 25, even or odd, is refused: an error is logged and the file is
    neither loaded nor written. *)
Theorem process_file_window_size
        (interp1d : interp_kind -> list nat -> list F32.t -> list nat
                    -> option (list F32.t))
        (env : save_env)
        (window_size : Z) (threshold : F64.t) (max_length : Z)
        (file : option (audio_data * Z)) :
  (Z.even window_size = true -> (3 <= window_size <= 25)%Z ->
   let adjusted := process_file interp1d env (Some (window_size, threshold, max_length)) file in
   let odd := process_file interp1d env (Some ((window_size + 1)%Z, threshold, max_length)) file in
   validate_window window_size
   = ([LogAdjustedWindow (window_size + 1)], Some (window_size + 1)%Z)
   /\ snd adjusted = snd odd
   /\ fst adjusted = LogProcessing :: LogAdjustedWindow (window_size + 1) :: tl (fst odd))
  /\ ((window_size < 3 \/ 25 < window_size)%Z ->
      process_file interp1d env (Some (window_size, threshold, max_length)) file
      = ([LogProcessing; LogWindowRange], None)).
Proof.
  split.
  - intros Heven Hrange. cbv zeta.
    assert (Hv : validate_window window_size
                 = ([LogAdjustedWindow (window_size + 1)], Some (window_size + 1)%Z)).
    { unfold validate_window.
      replace (window_size <? 3)%Z with false by (symmetry; apply Z.ltb_ge; lia).
      replace (25 <? window_size)%Z with false by (symmetry; apply Z.ltb_ge; lia).
      simpl. rewrite even_mod2, Heven. reflexivity. }
    assert (Hv' : validate_window (window_size + 1) = ([], Some (window_size + 1)%Z)).
    { unfold validate_window.
      assert (window_size <> 25%Z) by (intros ->; discriminate).
      replace (window_size + 1 <? 3)%Z with false by (symmetry; apply Z.ltb_ge; lia).
      replace (25 <? window_size + 1)%Z with false by (symmetry; apply Z.ltb_ge; lia).
      simpl. rewrite even_mod2, Z.even_add, Heven. reflexivity. }
    split; [exact Hv |].
    unfold process_file. rewrite Hv, Hv'.
    destruct file as [(audio, sample_rate) |]; simpl; [| split; reflexivity].
    destruct (sample_rate =? 0)%Z; simpl; [split; reflexivity |].
    destruct (declick interp1d audio sample_rate (window_size + 1) threshold max_length)
      as [((msgs, audio'), total) |]; simpl; [| split; reflexivity].
    destruct (save_stage env audio' sample_rate total) as (saved, written).
    simpl. split; reflexivity.
  - intros Hout. unfold process_file, validate_window.
    replace ((window_size <? 3)%Z || (25 <? window_size)%Z) with true; [reflexivity |].
    symmetry. apply orb_true_iff.
    destruct Hout; [left; apply Z.ltb_lt | right; apply Z.ltb_lt]; assumption.
Qed.

Lemma process_file_window_size_witness :
  (let adjusted := process_file sample_interp1d wav_output (Some (8%Z, four, 8%Z))
                                (Some (Mono burst_signal, 44100%Z)) in
   let odd := process_file sample_interp1d wav_output (Some ((8 + 1)%Z, four, 8%Z))
                           (Some (Mono burst_signal, 44100%Z)) in
   validate_window 8 = ([LogAdjustedWindow (8 + 1)], Some (8 + 1)%Z)
   /\ snd adjusted = snd odd
   /\ fst adjusted = LogProcessing :: LogAdjustedWindow (8 + 1) :: tl (fst odd))
  /\ process_file sample_interp1d wav_output (Some (2%Z, four, 8%Z))
                  (Some (Mono burst_signal, 44100%Z))
     = ([LogProcessing; LogWindowRange], None).
Proof.
  split.
  - apply (proj1 (@process_file_window_size sample_interp1d wav_output 8 four 8
                    (Some (Mono burst_signal, 44100%Z)))).
    + reflexivity.
    + lia.
  - apply (proj2 (@process_file_window_size sample_interp1d wav_output 2 four 8
                    (Some (Mono burst_signal, 44100%Z)))).
    left. lia.
Defined.

(** C8, as stated, fails: 26 is even and is refused, not incremented. *)
Lemma process_file_refuses_26 :
  Z.even 26 = true
  /\ process_file sample_interp1d wav_output (Some (26%Z, four, 8%Z))
                  (Some (Mono burst_signal, 44100%Z))
     = ([LogProcessing; LogWindowRange], None).
Proof. split; reflexivity. Qed.

(** ** Silence detection *)

(** *** Python ranges *)

Lemma py_range_in (start stop step i : Z) :
  In i (py_range start stop step) ->
  ((0 < step)%Z -> (start <= i < stop)%Z)
  /\ ((step < 0)%Z -> (stop < i <= start)%Z).
Proof.
  unfold py_range, py_range_len. intros Hin.
  apply in_map_iff in Hin. destruct Hin as (k & <- & Hk).
  apply in_seq in Hk. split; intros Hs.
  - replace (0 <? step)%Z with true in Hk by (symmetry; apply Z.ltb_lt; lia).
    pose proof (Z.mul_div_le (stop - start + step - 1) step Hs) as Hq.
    nia.
  - replace (0 <? step)%Z with false in Hk by (symmetry; apply Z.ltb_ge; lia).
    replace (step <? 0)%Z with true in Hk by (symmetry; apply Z.ltb_lt; lia).
    assert (Hpos : (0 < - step)%Z) by lia.
    pose proof (Z.mul_div_le (start - stop - step - 1) (- step) Hpos) as Hq.
    nia.
Qed.

Lemma py_range_chk_some (start stop step : Z) (l : list Z) :
  py_range_chk start stop step = Some l ->
  step <> 0%Z /\ l = py_range start stop step.
Proof.
  unfold py_range_chk. destruct (Z.eqb_spec step 0); [discriminate |].
  intros H. injection H as <-. split; [assumption | reflexivity].
Qed.

(** *** The scanning loop *)

Lemma first_close_some (audio : list F32.t) (overall : F32.t) (size : Z)
      (indices : list Z) (i : Z) :
  first_close audio overall size indices = Some i ->
  In i indices /\ frame_close audio overall size i = true.
Proof.
  induction indices as [| j indices IH]; simpl; [discriminate |].
  destruct (too_small (frame_at audio size j) size); [discriminate |].
  destruct (frame_close audio overall size j) eqn:Hclose.
  - intros H. injection H as <-. split; [left; reflexivity | exact Hclose].
  - intros H. destruct (IH H) as (Hin & Hc). split; [right; exact Hin | exact Hc].
Qed.

Lemma first_close_none (audio : list F32.t) (overall : F32.t) (size : Z)
      (indices : list Z) :
  (forall i, In i indices -> frame_close audio overall size i = false) ->
  first_close audio overall size indices = None.
Proof.
  induction indices as [| j indices IH]; intros Hfar; simpl; [reflexivity |].
  destruct (too_small (frame_at audio size j) size); [reflexivity |].
  rewrite (Hfar j) by (left; reflexivity).
  apply IH. intros i Hi. apply Hfar. right. exact Hi.
Qed.

(** *** Signs of the frame sizes *)

Lemma binary_round_aux_sign (prec emax : Z) (sx : bool) (mx ex : Z) (lx : location) :
  match binary_round_aux prec emax sx mx ex lx with
  | S754_zero s | S754_infinity s | S754_finite s _ _ => s = sx
  | S754_nan => True
  end.
Proof.
  unfold binary_round_aux.
  destruct (shr_fexp prec emax mx ex lx) as (mrs', e').
  destruct (shr_fexp prec emax _ e' loc_Exact) as (mrs'', e'').
  destruct (shr_m mrs''); [reflexivity | | exact I].
  destruct (e'' <=? emax - prec)%Z; reflexivity.
Qed.

Section Signs.

Variables prec emax : Z.

Lemma binary_normalize_nonneg (z e : Z) :
  (0 <= z)%Z -> nonneg_float (binary_normalize prec emax z e false).
Proof.
  destruct z as [| p | p]; try lia; intros _; [reflexivity |].
  unfold binary_normalize, binary_round.
  destruct (shl_align p e _) as (mz, ez).
  apply (binary_round_aux_sign prec emax false (Zpos mz) ez loc_Exact).
Qed.

Lemma SFmul_nonneg (x y : spec_float) :
  nonneg_float x -> nonneg_float y -> nonneg_float (SFmul prec emax x y).
Proof.
  destruct x as [sx | sx | | sx mx ex], y as [sy | sy | | sy my ey];
    simpl; intros Hx Hy; subst; try reflexivity; try exact I.
  apply (binary_round_aux_sign prec emax false).
Qed.





End Signs.

Lemma of_Z_nonneg (z : Z) : (0 < z)%Z -> nonneg_float (F64.of_Z z).
Proof. intros Hz. apply binary_normalize_nonneg. lia. Qed.

Lemma mul_nonneg (x y : F64.t) :
  nonneg_float x -> nonneg_float y -> nonneg_float (F64.mul x y).
Proof. apply SFmul_nonneg. Qed.






Lemma pairwise_sum_unfold (depth : nat) (a : list F32.t) :
  pairwise_sum depth a
  = if length a <? 8 then add_each neg_zero a
    else if length a <=? 128 then sum_unrolled a
    else match depth with
         | O => F32.nan
         | S depth' =>
             let n2 := length a / 2 - (length a / 2) mod 8 in
             F32.add (pairwise_sum depth' (firstn n2 a))
                     (pairwise_sum depth' (skipn n2 a))
         end.
Proof. destruct depth; reflexivity. Qed.

(** The bound on the depth is never reached: any depth from the length
    of the array on gives the same sum, and the sum of a long array is the
    sum of the sums of its two parts. *)
Lemma pairwise_sum_depth (d1 d2 : nat) (a : list F32.t) :
  length a <= d1 -> length a <= d2 -> pairwise_sum d1 a = pairwise_sum d2 a.
Proof.
  revert d2 a. induction d1 as [| d1 IH]; intros d2 a H1 H2;
    rewrite (pairwise_sum_unfold _ a), (pairwise_sum_unfold d2 a);
    (destruct (length a <? 8) eqn:Hsmall; [reflexivity |]);
    (destruct (length a <=? 128) eqn:Hblock; [reflexivity |]);
    apply Nat.ltb_ge in Hsmall; apply Nat.leb_gt in Hblock; [lia |].
  destruct d2 as [| d2]; [lia |]. cbv zeta.
  pose proof (Nat.div_mod_eq (length a) 2) as Hq.
  pose proof (Nat.mod_upper_bound (length a) 2) as Hr2.
  pose proof (Nat.mod_upper_bound (length a / 2) 8) as Hr8.
  f_equal; apply IH; rewrite ?length_firstn, ?length_skipn; lia.
Qed.

Lemma pairwise_sum_split (a : list F32.t) :
  128 < length a ->
  let n2 := length a / 2 - (length a / 2) mod 8 in
  pairwise_sum (length a) a
  = F32.add (pairwise_sum (length (firstn n2 a)) (firstn n2 a))
            (pairwise_sum (length (skipn n2 a)) (skipn n2 a)).
Proof.
  intros Hlong. cbv zeta. rewrite (pairwise_sum_unfold (length a) a).
  replace (length a <? 8) with false by (symmetry; apply Nat.ltb_ge; lia).
  replace (length a <=? 128) with false by (symmetry; apply Nat.leb_gt; lia).
  destruct (length a) as [| n] eqn:Hn; [lia |]. cbv zeta.
  pose proof (Nat.div_mod_eq (S n) 2) as Hq.
  pose proof (Nat.mod_upper_bound (S n) 2) as Hr2.
  pose proof (Nat.mod_upper_bound (S n / 2) 8) as Hr8.
  f_equal; apply pairwise_sum_depth;
    rewrite ?length_firstn, ?length_skipn, ?Hn; lia.
Qed.




Lemma to_int_nonneg (x : F64.t) (k : Z) :
  nonneg_float x -> F64.to_int x = Some k -> (0 <= k)%Z.
Proof.
  destruct x as [s | s | | s m e]; simpl; intros Hx H; try discriminate.
  - injection H as <-. lia.
  - subst s. injection H as <-.
    destruct e; [apply Z.shiftl_nonneg | apply Z.shiftl_nonneg | apply Z.shiftr_nonneg];
      lia.
Qed.

Lemma half_nonneg : nonneg_float half.
Proof. vm_compute. reflexivity. Qed.

Lemma tenth_nonneg : nonneg_float tenth.
Proof. vm_compute. reflexivity. Qed.

Lemma coarse_samples_nonneg (sample_rate coarse : Z) :
  (0 < sample_rate)%Z -> coarse_samples sample_rate = Some coarse -> (0 <= coarse)%Z.
Proof.
  intros Hsr. apply to_int_nonneg.
  apply mul_nonneg; [exact half_nonneg | apply of_Z_nonneg; exact Hsr].
Qed.

Lemma fine_samples_nonneg (sample_rate fine : Z) :
  (0 < sample_rate)%Z -> fine_samples sample_rate = Some fine -> (0 <= fine)%Z.
Proof.
  intros Hsr. apply to_int_nonneg.
  apply mul_nonneg; [exact tenth_nonneg | apply of_Z_nonneg; exact Hsr].
Qed.

(** *** The four phases *)

Lemma bind_some {A B} (x : option A) (f : A -> option B) (b : B) :
  bind x f = Some b -> exists a, x = Some a /\ f a = Some b.
Proof.
  destruct x as [a |]; simpl; [| discriminate].
  intros H. exists a. split; [reflexivity | exact H].
Qed.

Ltac invert_bind H :=
  let a := fresh "a" in
  let Ha := fresh "Ha" in
  apply bind_some in H; destruct H as (a & Ha & H).

Lemma first_close_found (audio : list F32.t) (size : Z) (indices : list Z) :
  found_at audio size indices (first_close audio (rms audio) size indices).
Proof.
  unfold found_at. destruct (first_close _ _ _ _) as [i |] eqn:H; [| exact I].
  apply (first_close_some _ _ _ _ H).
Qed.

Lemma coarse_start_scan_found (audio : list F32.t) (coarse : Z) (found : option Z) :
  coarse_start_scan audio coarse = Some found ->
  coarse <> 0%Z
  /\ found_at audio coarse (py_range 0 (Z.of_nat (length audio)) coarse) found.
Proof.
  unfold coarse_start_scan. intros H. invert_bind H.
  apply py_range_chk_some in Ha. destruct Ha as (Hstep & ->).
  injection H as <-. split; [exact Hstep | apply first_close_found].
Qed.

Lemma fine_start_scan_found (audio : list F32.t) (sample_rate coarse fine : Z)
      (start_coarse : F64.t) (found : option Z) :
  fine_start_scan audio sample_rate coarse fine start_coarse = Some found ->
  fine <> 0%Z
  /\ exists start_sample,
       (0 <= start_sample)%Z
       /\ found_at audio fine
                   (py_range start_sample
                             (Z.min (start_sample + coarse * 2)
                                    (Z.of_nat (length audio))) fine) found.
Proof.
  unfold fine_start_scan. intros H. invert_bind H. invert_bind H.
  apply py_range_chk_some in Ha0. destruct Ha0 as (Hstep & ->).
  injection H as <-. split; [exact Hstep |].
  exists (Z.max 0 (a - coarse)). split; [lia | apply first_close_found].
Qed.

Lemma coarse_end_scan_found (audio : list F32.t) (coarse : Z) (found : option Z) :
  coarse_end_scan audio coarse = Some found ->
  coarse <> 0%Z
  /\ found_at audio coarse
              (py_range (Z.of_nat (length audio) - coarse) 0 (- coarse)) found.
Proof.
  unfold coarse_end_scan. intros H. invert_bind H.
  apply py_range_chk_some in Ha. destruct Ha as (Hstep & ->).
  injection H as <-. split; [lia | apply first_close_found].
Qed.

Lemma fine_end_scan_found (audio : list F32.t) (sample_rate coarse fine : Z)
      (end_coarse : F64.t) (found : option Z) :
  fine_end_scan audio sample_rate coarse fine end_coarse = Some found ->
  fine <> 0%Z
  /\ exists end_sample,
       (end_sample <= Z.of_nat (length audio))%Z
       /\ found_at audio fine
                   (py_range (end_sample - fine)
                             (Z.max (end_sample - coarse * 2) 0) (- fine)) found.
Proof.
  unfold fine_end_scan. intros H. invert_bind H. invert_bind H.
  apply py_range_chk_some in Ha0. destruct Ha0 as (Hstep & ->).
  injection H as <-. split; [lia |].
  exists (Z.min (Z.of_nat (length audio)) (a + coarse)).
  split; [lia | apply first_close_found].
Qed.

(** The stages of a run of [detect_silence_body] that raises nothing. *)
Lemma detect_silence_body_stages (audio : list F32.t) (sample_rate : Z)
      (track_start track_end total : F64.t) :
  detect_silence_body audio sample_rate = Some (track_start, track_end, total) ->
  exists coarse fine found1 found2 found3 found4,
    let start_coarse := match found1 with
                        | Some i => seconds i sample_rate
                        | None => F64.zero
                        end in
    let end_coarse := match found3 with
                      | Some i => seconds (i + coarse) sample_rate
                      | None => total_length audio sample_rate
                      end in
    coarse_samples sample_rate = Some coarse
    /\ fine_samples sample_rate = Some fine
    /\ coarse_start_scan audio coarse = Some found1
    /\ fine_start_scan audio sample_rate coarse fine start_coarse = Some found2
    /\ coarse_end_scan audio coarse = Some found3
    /\ fine_end_scan audio sample_rate coarse fine end_coarse = Some found4
    /\ track_start = match found2 with
                     | Some i => seconds i sample_rate
                     | None => start_coarse
                     end
    /\ track_end = match found4 with
                   | Some i => seconds (i + fine) sample_rate
                   | None => end_coarse
                   end
    /\ total = total_length audio sample_rate.
Proof.
  unfold detect_silence_body, track_start_coarse, track_start_fine,
    track_end_coarse, track_end_fine.
  intros H.
  invert_bind H. rename a into total', Ha into Htotal.
  unfold total_length_chk in Htotal.
  destruct (sample_rate =? 0)%Z; [discriminate |]. injection Htotal as <-.
  invert_bind H. rename a into coarse, Ha into Hcoarse.
  invert_bind H. invert_bind Ha. rename a0 into found1, Ha0 into H1.
  injection Ha as <-.
  invert_bind H. rename a into fine, Ha into Hfine.
  invert_bind H. invert_bind Ha. rename a0 into found2, Ha0 into H2.
  injection Ha as <-.
  invert_bind H. invert_bind Ha. rename a0 into found3, Ha0 into H3.
  injection Ha as <-.
  invert_bind H. invert_bind Ha. rename a0 into found4, Ha0 into H4.
  injection Ha as <-.
  injection H as <- <- <-.
  exists coarse, fine, found1, found2, found3, found4. cbv zeta.
  repeat (split; [assumption || reflexivity |]). reflexivity.
Qed.

Lemma found_in_range (audio : list F32.t) (size start stop step : Z) (i : Z) :
  found_at audio size (py_range start stop step) (Some i) ->
  ((0 < step)%Z -> (start <= i < stop)%Z)
  /\ ((step < 0)%Z -> (stop < i <= start)%Z).
Proof. intros (Hin & _). apply py_range_in. exact Hin. Qed.

(** C3, as the code has it.  On a mono buffer with a positive sample
    rate, when [detect_silence] delivers times, the total is
    [len / sample_rate], the start is [0] or [i / sample_rate] for a sample
    offset [0 <= i < len], and the end is [j / sample_rate] for a sample
    offset [0 <= j <= len]: both boundaries lie in the track.  Their order
    is left to the caller: [process_file] trims only when
    [end - start <= 0] is false and skips the file otherwise. *)
Theorem detect_silence_offsets
        (audio : list F32.t) (sample_rate : Z) (track_start track_end total : F64.t) :
  (0 < sample_rate)%Z ->
  detect_silence (Mono audio) sample_rate = (Some track_start, Some track_end, total) ->
  let n := Z.of_nat (length audio) in
  total = seconds n sample_rate
  /\ (track_start = F64.zero
      \/ exists i, (0 <= i < n)%Z /\ track_start = seconds i sample_rate)
  /\ (exists j, (0 <= j <= n)%Z /\ track_end = seconds j sample_rate)
  /\ trim_plan (Mono audio) sample_rate
     = (let duration := F64.sub track_end track_start in
        if F64.leb duration F64.zero then SkippedInvalidDuration duration
        else Trim track_start duration).
Proof.
  intros Hsr Hdet. cbv zeta.
  assert (Hplan : trim_plan (Mono audio) sample_rate
                  = (let duration := F64.sub track_end track_start in
                     if F64.leb duration F64.zero then SkippedInvalidDuration duration
                     else Trim track_start duration)).
  { unfold trim_plan. rewrite Hdet. reflexivity. }
  unfold detect_silence in Hdet. simpl in Hdet.
  destruct (detect_silence_body audio sample_rate) as [((s, e), t) |] eqn:Hbody;
    [| discriminate].
  injection Hdet as -> -> ->.
  destruct (detect_silence_body_stages _ _ Hbody)
    as (coarse & fine & found1 & found2 & found3 & found4 & Hst).
  cbv zeta in Hst.
  destruct Hst as (Hc & Hf & H1 & H2 & H3 & H4 & -> & -> & ->).
  pose proof (coarse_samples_nonneg Hsr Hc) as Hc0.
  pose proof (fine_samples_nonneg Hsr Hf) as Hf0.
  apply coarse_start_scan_found in H1. destruct H1 as (Hcne & F1).
  apply fine_start_scan_found in H2. destruct H2 as (Hfne & start_sample & Hss & F2).
  apply coarse_end_scan_found in H3. destruct H3 as (_ & F3).
  apply fine_end_scan_found in H4. destruct H4 as (_ & end_sample & Hes & F4).
  split; [reflexivity |]. split; [| split; [| exact Hplan]].
  - destruct found2 as [i |].
    + right. exists i. split; [| reflexivity].
      destruct (@found_in_range _ _ _ _ _ _ F2) as (Hup & _). lia.
    + destruct found1 as [i |]; [| left; reflexivity].
      right. exists i. split; [| reflexivity].
      destruct (@found_in_range _ _ _ _ _ _ F1) as (Hup & _). lia.
  - destruct found4 as [i |].
    + exists (i + fine)%Z. split; [| reflexivity].
      destruct (@found_in_range _ _ _ _ _ _ F4) as (_ & Hdown). lia.
    + destruct found3 as [i |].
      * exists (i + coarse)%Z. split; [| reflexivity].
        destruct (@found_in_range _ _ _ _ _ _ F3) as (_ & Hdown). lia.
      * exists (Z.of_nat (length audio)). split; [lia | reflexivity].
Qed.

Lemma detect_silence_offsets_witness :
  seconds 18 10 = seconds (Z.of_nat (length crossing_signal)) 10
  /\ (seconds 15 10 = F64.zero
      \/ exists i, (0 <= i < Z.of_nat (length crossing_signal))%Z
                   /\ seconds 15 10 = seconds i 10)
  /\ (exists j, (0 <= j <= Z.of_nat (length crossing_signal))%Z
                /\ seconds 13 10 = seconds j 10)
  /\ trim_plan (Mono crossing_signal) 10
     = (let duration := F64.sub (seconds 13 10) (seconds 15 10) in
        if F64.leb duration F64.zero then SkippedInvalidDuration duration
        else Trim (seconds 15 10) duration).
Proof.
  apply (@detect_silence_offsets crossing_signal 10
           (seconds 15 10) (seconds 13 10) (seconds 18 10)).
  - lia.
  - vm_compute. reflexivity.
Defined.

(** C3, as stated, fails: at 10 Hz, on 1.8 s made of one second of silence
    followed by isolated samples of 0.5, the forward coarse scan stops at
    the frame starting at 1.5 s, the backward coarse scan at the frame
    ending at 1.3 s, no fine frame is close to the overall loudness, and
    the start returned is after the end. *)
Lemma detect_silence_start_after_end :
  detect_silence (Mono crossing_signal) 10
  = (Some (seconds 15 10), Some (seconds 13 10), seconds 18 10)
  /\ F64.leb (seconds 15 10) (seconds 13 10) = false
  /\ F64.ltb (seconds 13 10) (seconds 15 10) = true
  /\ trim_plan (Mono crossing_signal) 10
     = SkippedInvalidDuration (F64.sub (seconds 13 10) (seconds 15 10)).
Proof. repeat split; vm_compute; reflexivity. Qed.

(** The frame sizes at the usual rates. *)
Lemma frame_sizes_44100 :
  coarse_samples 44100 = Some 22050%Z /\ fine_samples 44100 = Some 4410%Z
  /\ coarse_samples 48000 = Some 24000%Z /\ fine_samples 48000 = Some 4800%Z.
Proof. repeat split; vm_compute; reflexivity. Qed.

(** Below 10 Hz the fine frame size [int(0.1 * sample_rate)] is 0, the
    [range] of phase 2 raises, and the handler returns [(None, None, 0)]. *)
Lemma detect_silence_low_rate :
  fine_samples 5 = Some 0%Z
  /\ detect_silence (Mono crossing_signal) 5 = (None, None, F64.zero)
  /\ trim_plan (Mono crossing_signal) 5 = SkippedNoDetection.
Proof. repeat split; vm_compute; reflexivity. Qed.

(** C6, as the code has it.  When the coarse scan of a side ends without
    a match, the coarse boundary of that side is the extreme ([0] for the
    start, the total duration for the end).  The fine scan still runs from
    that extreme: the boundary returned is the extreme when the fine scan
    finds no frame either, and otherwise the position of a 0.1 s frame
    that satisfies the criterion. *)
Theorem detect_silence_coarse_default
        (audio : list F32.t) (sample_rate coarse fine : Z)
        (track_start track_end total : F64.t) :
  detect_silence_body audio sample_rate = Some (track_start, track_end, total) ->
  coarse_samples sample_rate = Some coarse ->
  fine_samples sample_rate = Some fine ->
  (coarse_start_scan audio coarse = Some None ->
   track_start_coarse audio sample_rate coarse = Some F64.zero
   /\ (track_start = F64.zero
       \/ exists i, frame_close audio (rms audio) fine i = true
                    /\ track_start = seconds i sample_rate)
   /\ (fine_start_scan audio sample_rate coarse fine F64.zero = Some None ->
       track_start = F64.zero))
  /\ (coarse_end_scan audio coarse = Some None ->
      track_end_coarse audio sample_rate coarse = Some total
      /\ (track_end = total
          \/ exists i, frame_close audio (rms audio) fine i = true
                       /\ track_end = seconds (i + fine) sample_rate)
      /\ (fine_end_scan audio sample_rate coarse fine total = Some None ->
          track_end = total)).
Proof.
  intros Hbody Hc Hf.
  destruct (detect_silence_body_stages _ _ Hbody)
    as (coarse' & fine' & found1 & found2 & found3 & found4 & Hst).
  cbv zeta in Hst.
  destruct Hst as (Hc' & Hf' & H1 & H2 & H3 & H4 & -> & -> & ->).
  assert (coarse' = coarse) by congruence. assert (fine' = fine) by congruence.
  subst coarse' fine'.
  split.
  - intros Hnone. rewrite Hnone in H1. injection H1 as <-.
    split; [unfold track_start_coarse; rewrite Hnone; reflexivity |].
    split.
    + destruct found2 as [i |]; [| left; reflexivity].
      right. exists i. split; [| reflexivity].
      apply fine_start_scan_found in H2.
      destruct H2 as (_ & start_sample & _ & (_ & Hclose)). exact Hclose.
    + intros Hfine. rewrite Hfine in H2. injection H2 as <-. reflexivity.
  - intros Hnone. rewrite Hnone in H3. injection H3 as <-.
    split; [unfold track_end_coarse; rewrite Hnone; reflexivity |].
    split.
    + destruct found4 as [i |]; [| left; reflexivity].
      right. exists i. split; [| reflexivity].
      apply fine_end_scan_found in H4.
      destruct H4 as (_ & end_sample & _ & (_ & Hclose)). exact Hclose.
    + intros Hfine. rewrite Hfine in H4. injection H4 as <-. reflexivity.
Qed.

Lemma detect_silence_coarse_default_witness :
  coarse_start_scan fine_only_signal 5 = Some None
  /\ coarse_end_scan fine_only_signal 5 = Some None
  /\ fine_start_scan fine_only_signal 10 5 1 F64.zero = Some (Some 1%Z)
  /\ fine_end_scan fine_only_signal 10 5 1 (seconds 15 10) = Some (Some 12%Z)
  /\ (track_start_coarse fine_only_signal 10 5 = Some F64.zero
      /\ (seconds 1 10 = F64.zero
          \/ exists i, frame_close fine_only_signal (rms fine_only_signal) 1 i = true
                       /\ seconds 1 10 = seconds i 10)
      /\ (fine_start_scan fine_only_signal 10 5 1 F64.zero = Some None ->
          seconds 1 10 = F64.zero))
  /\ (track_end_coarse fine_only_signal 10 5 = Some (seconds 15 10)
      /\ (seconds 13 10 = seconds 15 10
          \/ exists i, frame_close fine_only_signal (rms fine_only_signal) 1 i = true
                       /\ seconds 13 10 = seconds (i + 1) 10)
      /\ (fine_end_scan fine_only_signal 10 5 1 (seconds 15 10) = Some None ->
          seconds 13 10 = seconds 15 10)).
Proof.
  assert (Hbody : detect_silence_body fine_only_signal 10
                  = Some (seconds 1 10, seconds 13 10, seconds 15 10))
    by (vm_compute; reflexivity).
  assert (Hc : coarse_samples 10 = Some 5%Z) by (vm_compute; reflexivity).
  assert (Hf : fine_samples 10 = Some 1%Z) by (vm_compute; reflexivity).
  assert (Hs : coarse_start_scan fine_only_signal 5 = Some None)
    by (vm_compute; reflexivity).
  assert (He : coarse_end_scan fine_only_signal 5 = Some None)
    by (vm_compute; reflexivity).
  destruct (detect_silence_coarse_default _ _ Hbody Hc Hf) as (Hstart & Hend).
  split; [exact Hs |]. split; [exact He |].
  split; [vm_compute; reflexivity |]. split; [vm_compute; reflexivity |].
  split; [exact (Hstart Hs) | exact (Hend He)].
Defined.

(** C6, as stated, fails: at 10 Hz no coarse frame of [fine_only_signal]
    satisfies the criterion in either direction, yet the fine scans find
    the sample at 0.1 s and the frame ending at 1.3 s, and these are
    returned instead of [0] and the total duration of 1.5 s. *)
Lemma detect_silence_fine_overrides_default :
  coarse_samples 10 = Some 5%Z
  /\ forallb (fun i => negb (frame_close fine_only_signal (rms fine_only_signal) 5 i))
             (py_range 0 15 5 ++ py_range (15 - 5) 0 (- 5)) = true
  /\ coarse_start_scan fine_only_signal 5 = Some None
  /\ coarse_end_scan fine_only_signal 5 = Some None
  /\ detect_silence (Mono fine_only_signal) 10
     = (Some (seconds 1 10), Some (seconds 13 10), seconds 15 10)
  /\ F64.eqb (seconds 1 10) F64.zero = false
  /\ F64.eqb (seconds 13 10) (seconds 15 10) = false.
Proof. repeat split; vm_compute; reflexivity. Qed.

(** *** A silent buffer *)










(** * Further properties *)

(** ** Short runs are always reported *)

Lemma scan_step_clean_closes (max_length : Z) (st : scan_state) (i : nat) :
  in_click (scan_step max_length st i false) = false.
Proof.
  unfold scan_step. simpl.
  destruct (in_click st) eqn:Hin; simpl; [reflexivity | exact Hin].
Qed.

Lemma scan_step_keeps_clicks (max_length : Z) (st : scan_state) (i : nat) (o : bool)
      (r : nat * nat) :
  In r (clicks st) -> In r (clicks (scan_step max_length st i o)).
Proof.
  intros Hr. unfold scan_step.
  destruct (o && negb (in_click st)); [exact Hr |].
  destruct (negb o && in_click st); simpl.
  - destruct (click_len i (click_start st) <=? max_length)%Z; [| exact Hr].
    apply in_or_app. left. exact Hr.
  - destruct (in_click st && (max_length <? click_len i (click_start st))%Z); exact Hr.
Qed.

Lemma run_progress_step (max_length : Z) (mask : list bool) (s e i : nat)
      (st : scan_state) :
  maximal_run mask s e = true ->
  (click_len e s <= max_length)%Z ->
  i < length mask ->
  run_progress s e i st ->
  run_progress s e (S i) (scan_step max_length st i (nth i mask false)).
Proof.
  unfold maximal_run. intros Hrun Hfit Hi (Hat & Hin & Hafter).
  apply andb_true_iff in Hrun. destruct Hrun as (Hrun & Hnext).
  apply andb_true_iff in Hrun. destruct Hrun as (Hrun & Hprev).
  apply andb_true_iff in Hrun. destruct Hrun as (Hrun & Hall).
  apply andb_true_iff in Hrun. destruct Hrun as (Hse & Hen).
  apply Nat.ltb_lt in Hse. apply Nat.leb_le in Hen.
  rewrite forallb_forall in Hall.
  assert (Hinside : forall k, s <= k < e -> nth k mask false = true).
  { intros k Hk. apply Hall. apply in_seq. lia. }
  unfold click_len in Hfit.
  split; [| split].
  - (* the sample before the run is clean *)
    intros Hs. subst s.
    apply negb_true_iff in Hprev.
    replace (0 <? S i) with true in Hprev by (symmetry; apply Nat.ltb_lt; lia).
    simpl in Hprev. rewrite Nat.sub_0_r in Hprev. rewrite Hprev.
    apply scan_step_clean_closes.
  - intros Hrange. rewrite (Hinside i) by lia.
    destruct (Nat.eq_dec i s) as [-> | Hne].
    + (* the run opens *)
      unfold scan_step. rewrite (Hat eq_refl). simpl. split; reflexivity.
    + (* the run goes on, still within the limit *)
      destruct Hin as (Hopen & Hstart); [lia |].
      unfold scan_step. rewrite Hopen, Hstart. simpl.
      replace (max_length <? click_len i s)%Z with false
        by (symmetry; apply Z.ltb_ge; unfold click_len; lia).
      simpl. split; assumption.
  - intros He.
    destruct (Nat.eq_dec i e) as [-> | Hne].
    + (* the clean sample after the run closes it *)
      destruct Hin as (Hopen & Hstart); [lia |].
      apply negb_true_iff in Hnext. rewrite Hnext.
      unfold scan_step. rewrite Hopen, Hstart. simpl.
      replace (click_len e s <=? max_length)%Z with true
        by (symmetry; apply Z.leb_le; unfold click_len; lia).
      apply in_or_app. right. left. reflexivity.
    + apply scan_step_keeps_clicks. apply Hafter. lia.
Qed.

Lemma run_progress_scan (max_length : Z) (mask : list bool) (s e : nat)
      (rest seen : list bool) (st : scan_state) :
  maximal_run mask s e = true ->
  (click_len e s <= max_length)%Z ->
  mask = seen ++ rest ->
  run_progress s e (length seen) st ->
  run_progress s e (length mask) (scan_from max_length (length seen) rest st).
Proof.
  intros Hrun Hfit. revert seen st.
  induction rest as [| o rest IH]; intros seen st Hmask Hp; simpl.
  - rewrite Hmask, app_nil_r. exact Hp.
  - replace (S (length seen)) with (length (seen ++ [o]))
      by (rewrite length_app; simpl; lia).
    apply IH.
    + rewrite Hmask, <- app_assoc. reflexivity.
    + rewrite length_app. simpl. rewrite Nat.add_1_r.
      replace o with (nth (length seen) mask false)
        by (rewrite Hmask, app_nth2 by lia; rewrite Nat.sub_diag; reflexivity).
      apply run_progress_step; try assumption.
      rewrite Hmask, length_app. simpl. lia.
Qed.

Lemma group_clicks_complete (mask : list bool) (max_length : Z) (s e : nat) :
  maximal_run mask s e = true ->
  (click_len e s <= max_length)%Z ->
  In (s, e) (group_clicks mask max_length).
Proof.
  intros Hrun Hfit.
  assert (Hinit : run_progress s e (length (@nil bool)) scan_init).
  { unfold run_progress, scan_init. simpl.
    split; [intros _; reflexivity | split; intros; lia]. }
  pose proof (@run_progress_scan max_length mask s e mask [] scan_init
                Hrun Hfit eq_refl Hinit) as (Hat & Hin & Hafter).
  simpl in *.
  unfold maximal_run in Hrun.
  apply andb_true_iff in Hrun. destruct Hrun as (Hrun & _).
  apply andb_true_iff in Hrun. destruct Hrun as (Hrun & _).
  apply andb_true_iff in Hrun. destruct Hrun as (Hrun & _).
  apply andb_true_iff in Hrun. destruct Hrun as (Hse & Hen).
  apply Nat.ltb_lt in Hse. apply Nat.leb_le in Hen.
  unfold group_clicks, scan_finish.
  set (st := scan_from max_length 0 mask scan_init) in *.
  destruct (Nat.eq_dec e (length mask)) as [Heq | Hne].
  - destruct Hin as (Hopen & Hstart); [lia |].
    rewrite Hopen, Hstart, <- Heq.
    replace (click_len e s <=? max_length)%Z with true
      by (symmetry; apply Z.leb_le; exact Hfit).
    apply in_or_app. right. left. reflexivity.
  - assert (Hr : In (s, e) (clicks st)) by (apply Hafter; lia).
    destruct (in_click st); [| exact Hr].
    destruct (click_len (length mask) (click_start st) <=? max_length)%Z; [| exact Hr].
    apply in_or_app. left. exact Hr.
Qed.

(** X1.  Every maximal run of outliers that is not longer than the maximal
    click length is returned by [detect_clicks], as one region with the
    bounds of the run. *)
Theorem detect_clicks_reports_short_runs
        (audio : list F32.t) (sample_rate window_size : Z) (threshold : F64.t)
        (max_length : Z) (mask : list bool) (s e : nat) :
  outlier_mask audio window_size threshold = Some mask ->
  maximal_run mask s e = true ->
  (click_len e s <= max_length)%Z ->
  exists regions,
    detect_clicks audio sample_rate window_size threshold max_length = Some regions
    /\ In (s, e) regions.
Proof.
  intros Hmask Hrun Hfit. unfold detect_clicks. rewrite Hmask.
  eexists. split; [reflexivity |].
  apply group_clicks_complete; assumption.
Qed.

Lemma detect_clicks_reports_short_runs_witness :
  exists regions,
    detect_clicks burst_signal 44100 7 five 8 = Some regions
    /\ In (10, 18) regions.
Proof.
  apply (@detect_clicks_reports_short_runs burst_signal 44100 7 five 8
           (repeat false 10 ++ repeat true 8 ++ repeat false 10) 10 18).
  - vm_compute. reflexivity.
  - vm_compute. reflexivity.
  - vm_compute. discriminate.
Defined.

(** ** Digital silence *)

Lemma insert_sorted_forall (P : F32.t -> Prop) (x : F32.t) (l : list F32.t) :
  P x -> Forall P l -> Forall P (insert_sorted x l).
Proof.
  intros Hx. induction 1 as [| y l Hy Hl IH]; simpl.
  - constructor; [exact Hx | constructor].
  - destruct (F32.leb x y).
    + constructor; [exact Hx | constructor; assumption].
    + constructor; assumption.
Qed.

Lemma fsort_forall (P : F32.t -> Prop) (l : list F32.t) :
  Forall P l -> Forall P (fsort l).
Proof.
  induction 1 as [| x l Hx Hl IH]; simpl; [constructor |].
  apply insert_sorted_forall; assumption.
Qed.

Lemma nth_all_zero (l : list F32.t) (k : nat) :
  Forall (fun x => x = F32.zero) l -> nth k l F32.zero = F32.zero.
Proof.
  intros Hall. revert k. induction Hall as [| x l Hx Hl IH]; intros [| k]; simpl;
    try reflexivity; [exact Hx | apply IH].
Qed.

Lemma repeat_all_zero (n : nat) : Forall (fun x => x = F32.zero) (repeat F32.zero n).
Proof. induction n; simpl; constructor; [reflexivity | assumption]. Qed.

Lemma map_const_seq {A} (c : A) (f : nat -> A) (start n : nat) :
  (forall i, f i = c) -> map f (seq start n) = repeat c n.
Proof.
  intros Hf. revert start. induction n as [| n IH]; intros start; simpl; [reflexivity |].
  rewrite Hf, IH. reflexivity.
Qed.

Lemma medfilt_silence (n : nat) (window_size : Z) :
  (1 <= window_size)%Z -> Z.odd window_size = true ->
  medfilt (repeat F32.zero n) window_size = Some (repeat F32.zero n).
Proof.
  intros Hpos Hodd. rewrite medfilt_some by assumption.
  rewrite repeat_length. f_equal. apply map_const_seq. intros i.
  apply nth_all_zero. apply fsort_forall.
  unfold medfilt_window. apply Forall_forall. intros x Hx.
  apply in_map_iff in Hx. destruct Hx as (j & <- & _).
  unfold padded_get.
  destruct ((0 <=? _) && (_ <? _))%Z; [| reflexivity].
  apply nth_all_zero. apply repeat_all_zero.
Qed.

Lemma abs_diff_silence (n : nat) :
  abs_diff (repeat F32.zero n) (repeat F32.zero n) = repeat F32.zero n.
Proof. induction n as [| n IH]; simpl; [reflexivity |]. rewrite IH. reflexivity. Qed.

Lemma np_median_silence (n : nat) :
  np_median (repeat F32.zero (S n)) = F32.zero.
Proof.
  unfold np_median.
  assert (Hnan : existsb is_nan (repeat F32.zero (S n)) = false).
  { induction n as [| n IH]; [reflexivity |]. simpl in *. exact IH. }
  rewrite Hnan, repeat_length.
  pose proof (fsort_forall (repeat_all_zero (S n))) as Hsorted.
  destruct (Nat.odd (S n)).
  - apply nth_all_zero. exact Hsorted.
  - rewrite !(nth_all_zero _ Hsorted). vm_compute. reflexivity.
Qed.

Lemma threshold_silence (x : spec_float) :
  F32.ltb (F32.add F32.zero (F32.mul (F32.mul x F32.zero) mad_scale)) F32.zero = false.
Proof.
  rewrite mad_scale_value.
  destruct x as [s | s | | s m e]; try destruct s; reflexivity.
Qed.

Lemma scan_from_clean (max_length : Z) (n i : nat) (st : scan_state) :
  in_click st = false ->
  scan_from max_length i (repeat false n) st = st.
Proof.
  intros Hin. revert i. induction n as [| n IH]; intros i; simpl; [reflexivity |].
  replace (scan_step max_length st i false) with st; [apply IH |].
  unfold scan_step. rewrite Hin. reflexivity.
Qed.

Lemma group_clicks_clean (n : nat) (max_length : Z) :
  group_clicks (repeat false n) max_length = [].
Proof.
  unfold group_clicks. rewrite scan_from_clean by reflexivity. reflexivity.
Qed.

(** X2.  On digital silence (a buffer of zeros of any length, the empty buffer
    included) [detect_clicks] reports no click, whatever the odd window
    size, the threshold multiplier (infinite or NaN included) and the
    maximal click length. *)
Theorem detect_clicks_silence
        (n : nat) (sample_rate window_size : Z) (threshold : F64.t) (max_length : Z) :
  (1 <= window_size)%Z -> Z.odd window_size = true ->
  detect_clicks (repeat F32.zero n) sample_rate window_size threshold max_length
  = Some [].
Proof.
  intros Hpos Hodd. unfold detect_clicks, outlier_mask.
  rewrite medfilt_silence by assumption. rewrite abs_diff_silence.
  f_equal. destruct n as [| n]; [reflexivity |].
  unfold threshold_value_of. rewrite np_median_silence.
  rewrite map_repeat.
  replace (F32.abs (F32.sub F32.zero F32.zero)) with F32.zero by reflexivity.
  rewrite np_median_silence.
  unfold outliers_of. rewrite map_repeat, threshold_silence.
  apply group_clicks_clean.
Qed.

Lemma detect_clicks_silence_witness :
  detect_clicks (repeat F32.zero 1000) 44100 9 four 8 = Some [].
Proof.
  apply (@detect_clicks_silence 1000 44100 9 four 8).
  - lia.
  - reflexivity.
Defined.

(** ** A maximal click length below one *)

Lemma detect_clicks_regions_valid
      (audio : list F32.t) (sample_rate window_size : Z) (threshold : F64.t)
      (max_length : Z) (regions : list (nat * nat)) :
  detect_clicks audio sample_rate window_size threshold max_length = Some regions ->
  exists mask,
    outlier_mask audio window_size threshold = Some mask
    /\ Forall (fun r => valid_region (length mask) max_length r
                        /\ all_outliers mask r) regions.
Proof.
  unfold detect_clicks.
  destruct (outlier_mask audio window_size threshold) as [mask |]; [| discriminate].
  intros H. injection H as <-. exists mask. split; [reflexivity |].
  apply group_clicks_sound.
Qed.

Lemma detect_clicks_nothing_below_one
      (audio : list F32.t) (sample_rate window_size : Z) (threshold : F64.t)
      (max_length : Z) (regions : list (nat * nat)) :
  (max_length < 1)%Z ->
  detect_clicks audio sample_rate window_size threshold max_length = Some regions ->
  regions = [].
Proof.
  intros Hmax Hdet.
  destruct (detect_clicks_regions_valid _ _ _ _ _ Hdet) as (mask & _ & Hall).
  destruct regions as [| r regions]; [reflexivity |].
  inversion Hall as [| ? ? ((Hlt & _ & Hlen) & _) _]; subst.
  unfold click_len in Hlen. lia.
Qed.

Lemma combine_fst_snd {A B} (l : list (A * B)) :
  combine (map fst l) (map snd l) = l.
Proof.
  induction l as [| (a, b) l IH]; simpl; [reflexivity |]. rewrite IH. reflexivity.
Qed.

Lemma validate_window_in_range (window_size : Z) :
  (3 <= window_size <= 25)%Z ->
  exists msgs w,
    validate_window window_size = (msgs, Some w)
    /\ (1 <= w)%Z /\ Z.odd w = true
    /\ (msgs = [] \/ msgs = [LogAdjustedWindow w]).
Proof.
  intros Hrange. unfold validate_window.
  replace (window_size <? 3)%Z with false by (symmetry; apply Z.ltb_ge; lia).
  replace (25 <? window_size)%Z with false by (symmetry; apply Z.ltb_ge; lia).
  simpl. rewrite even_mod2. destruct (Z.even window_size) eqn:Heven.
  - exists [LogAdjustedWindow (window_size + 1)], (window_size + 1)%Z.
    repeat split; [lia | | right; reflexivity].
    rewrite Z.odd_add, <- Z.negb_even, Heven. reflexivity.
  - exists [], window_size. repeat split; [lia | | left; reflexivity].
    rewrite <- Z.negb_even, Heven. reflexivity.
Qed.

Lemma detect_clicks_below_one
      (audio : list F32.t) (sample_rate window_size : Z) (threshold : F64.t)
      (max_length : Z) :
  (1 <= window_size)%Z -> Z.odd window_size = true -> (max_length < 1)%Z ->
  detect_clicks audio sample_rate window_size threshold max_length = Some [].
Proof.
  intros Hpos Hodd Hmax.
  pose proof (@detect_clicks_some audio sample_rate window_size threshold max_length _
                                  (@medfilt_some audio window_size Hpos Hodd)) as Hd.
  rewrite Hd. f_equal.
  apply (@detect_clicks_nothing_below_one _ _ _ _ _ _ Hmax Hd).
Qed.

(** With a maximal click length below one the correction stage returns
    the buffer it was given, with no click. *)
Lemma declick_below_one
      (interp1d : interp_kind -> list nat -> list F32.t -> list nat
                  -> option (list F32.t))
      (audio : audio_data) (sample_rate window_size : Z) (threshold : F64.t)
      (max_length : Z) :
  (1 <= window_size)%Z -> Z.odd window_size = true -> (max_length < 1)%Z ->
  exists msgs,
    declick interp1d audio sample_rate window_size threshold max_length
    = Some (msgs, audio, 0)
    /\ (msgs = [LogDetecting; LogDetected 0]
        \/ msgs = [LogChannel true; LogDetected 0; LogChannel false; LogDetected 0]).
Proof.
  intros Hpos Hodd Hmax. unfold declick. destruct audio as [a | frames].
  - rewrite (@detect_clicks_below_one a sample_rate window_size threshold max_length
               Hpos Hodd Hmax).
    eexists. split; [reflexivity | left; reflexivity].
  - rewrite (@detect_clicks_below_one (map fst frames) sample_rate window_size threshold
               max_length Hpos Hodd Hmax).
    rewrite (@detect_clicks_below_one (map snd frames) sample_rate window_size threshold
               max_length Hpos Hodd Hmax).
    unfold interpolate_clicks. simpl. rewrite combine_fst_snd.
    eexists. split; [reflexivity | right; reflexivity].
Qed.

(** Membership in a log that is written out. *)
Ltac completed_cases :=
  repeat match goal with
         | H : _ \/ _ |- _ => destruct H as [H | H]
         | H : False |- _ => contradiction
         | H : _ = LogCompleted _ |- _ => first [discriminate H | injection H as <-]
         end.

Ltac find_line := solve [repeat (first [left; reflexivity | right])].

(** X3.  [process_file] does not validate the maximal click length.  With
    a value below one nothing can be detected: for every valid window
    size, every file that is read (with a sample rate other than 0) and
    every output folder that can be created, the buffer passed to
    [sf.write] is the float32 buffer that was read, sample for sample; a
    "Completed!" line, if any, reports no click; one is logged when
    [sf.write] returns (and the replacement of the original, if
    requested, does not fail twice), and none is logged, but the error of
    the outer handler, when [sf.write] raises. *)
Theorem process_file_max_length_below_one
        (interp1d : interp_kind -> list nat -> list F32.t -> list nat
                    -> option (list F32.t))
        (env : save_env)
        (window_size : Z) (threshold : F64.t) (max_length : Z)
        (audio : audio_data) (sample_rate : Z) :
  (max_length < 1)%Z ->
  (3 <= window_size <= 25)%Z ->
  sample_rate <> 0%Z ->
  overwrite_originals env || mkdir_ok env = true ->
  let result := process_file interp1d env (Some (window_size, threshold, max_length))
                             (Some (audio, sample_rate)) in
  let returns := sf_write env (write_subtype (output_ext env)) audio sample_rate in
  snd result = Some audio
  /\ (forall n, In (LogCompleted n) (fst result) -> n = 0)
  /\ (returns = true ->
      overwrite_originals env = false \/ replace_original env <> CleanupFailed ->
      In (LogCompleted 0) (fst result))
  /\ (returns = false ->
      In LogError (fst result) /\ forall n, ~ In (LogCompleted n) (fst result)).
Proof.
  intros Hmax Hrange Hrate Hdir. cbv zeta. unfold process_file.
  destruct (@validate_window_in_range window_size Hrange)
    as (msgs & w & -> & Hpos & Hodd & Hmsgs).
  replace (sample_rate =? 0)%Z with false by (symmetry; apply Z.eqb_neq; exact Hrate).
  destruct (@declick_below_one interp1d audio sample_rate w threshold max_length
              Hpos Hodd Hmax) as (msgs' & -> & Hmsgs').
  unfold save_stage.
  destruct (overwrite_originals env) eqn:Hover, (mkdir_ok env) eqn:Hmk;
    try discriminate Hdir;
    destruct (sf_write env (write_subtype (output_ext env)) audio sample_rate);
    try destruct (replace_original env);
    destruct Hmsgs as [-> | ->], Hmsgs' as [-> | ->]; simpl;
    (split; [reflexivity |]);
    (split; [intros n Hn; completed_cases; reflexivity |]);
    (split;
     [ intros Hret Hrep;
       first [ discriminate Hret
             | find_line
             | destruct Hrep as [Hrep | Hrep]; [discriminate Hrep | congruence] ]
     | intros Hret;
       first [ discriminate Hret
             | split; [find_line | intros n Hn; completed_cases] ] ]).
Qed.

Lemma process_file_max_length_below_one_witness :
  (snd (process_file sample_interp1d wav_output (Some (7%Z, five, 0%Z))
                     (Some (Mono burst_signal, 44100%Z)))
   = Some (Mono burst_signal)
   /\ In (LogCompleted 0)
         (fst (process_file sample_interp1d wav_output (Some (7%Z, five, 0%Z))
                            (Some (Mono burst_signal, 44100%Z)))))
  /\ (snd (process_file sample_interp1d failing_write (Some (7%Z, five, 0%Z))
                        (Some (Mono burst_signal, 44100%Z)))
      = Some (Mono burst_signal)
      /\ In LogError
            (fst (process_file sample_interp1d failing_write (Some (7%Z, five, 0%Z))
                               (Some (Mono burst_signal, 44100%Z))))).
Proof.
  split.
  - destruct (@process_file_max_length_below_one sample_interp1d wav_output 7 five 0
                (Mono burst_signal) 44100) as (Hbuf & _ & Hdone & _);
      [lia | lia | discriminate | reflexivity |].
    split; [exact Hbuf |]. apply Hdone; [reflexivity | left; reflexivity].
  - destruct (@process_file_max_length_below_one sample_interp1d failing_write 7 five 0
                (Mono burst_signal) 44100) as (Hbuf & _ & _ & Hfail);
      [lia | lia | discriminate | reflexivity |].
    split; [exact Hbuf |]. apply Hfail. reflexivity.
Defined.

(** ** What [process_file] may change *)

Lemma inside_dec (i : nat) (r : nat * nat) : {inside i r} + {~ inside i r}.
Proof.
  unfold inside.
  destruct (le_dec (fst r) i); [| right; lia].
  destruct (lt_dec i (snd r)); [left; lia | right; lia].
Qed.

Lemma declick_channel
      (interp1d : interp_kind -> list nat -> list F32.t -> list nat
                  -> option (list F32.t))
      (channel : list F32.t) (sample_rate window_size : Z) (threshold : F64.t)
      (max_length : Z) (regions : list (nat * nat)) :
  detect_clicks channel sample_rate window_size threshold max_length = Some regions ->
  length (interpolate_clicks interp1d channel regions) = length channel
  /\ forall i,
       nth_error (interpolate_clicks interp1d channel regions) i <> nth_error channel i ->
       exists mask,
         outlier_mask channel window_size threshold = Some mask
         /\ nth i mask false = true.
Proof.
  intros Hdet.
  destruct (detect_clicks_regions_valid _ _ _ _ _ Hdet) as (mask & Hmask & Hall).
  split.
  - apply (fold_interpolate_frame interp1d channel regions channel).
  - intros i Hchanged. exists mask. split; [exact Hmask |].
    destruct (Exists_dec (inside i) regions (inside_dec i)) as [Hex | Hnone].
    + apply Exists_exists in Hex. destruct Hex as (r & Hr & Hi).
      rewrite Forall_forall in Hall. destruct (Hall r Hr) as (_ & Hout).
      apply Hout. exact Hi.
    + exfalso. apply Hchanged.
      apply (proj2 (fold_interpolate_frame interp1d channel regions channel)).
      intros r Hr Hi. apply Hnone. apply Exists_exists. exists r. split; assumption.
Qed.

Lemma combine_channels {A B} (a : list A) (b : list B) :
  length a = length b ->
  map fst (combine a b) = a /\ map snd (combine a b) = b.
Proof.
  revert b. induction a as [| x a IH]; intros [| y b] H; simpl in *;
    try discriminate; [split; reflexivity |].
  destruct (IH b) as (Ha & Hb); [lia |]. rewrite Ha, Hb. split; reflexivity.
Qed.

Lemma save_stage_buffer (env : save_env) (audio out : audio_data) (sample_rate : Z)
      (total_clicks : nat) :
  snd (save_stage env audio sample_rate total_clicks) = Some out -> out = audio.
Proof.
  unfold save_stage.
  destruct (negb (overwrite_originals env) && negb (mkdir_ok env)); [discriminate |].
  destruct (sf_write env _ audio sample_rate), (overwrite_originals env);
    try destruct (replace_original env); simpl; congruence.
Qed.

(** X4.  The float32 buffer that [process_file] passes to [sf.write] has
    the channel layout and the number of frames of the buffer that was
    read, and differs from it only at samples that the detector flagged:
    in each channel, a sample that has changed is an outlier of that
    channel's mask for the validated window size.  (This is about the
    buffer; the file holds the library's encoding of it.) *)
Theorem process_file_changes_outliers_only
        (interp1d : interp_kind -> list nat -> list F32.t -> list nat
                    -> option (list F32.t))
        (env : save_env)
        (window_size : Z) (threshold : F64.t) (max_length : Z)
        (audio : audio_data) (sample_rate : Z)
        (log : list log_line) (out : audio_data) :
  process_file interp1d env (Some (window_size, threshold, max_length))
               (Some (audio, sample_rate)) = (log, Some out) ->
  exists w,
    snd (validate_window window_size) = Some w
    /\ same_layout audio out
    /\ Forall2 (fun channel_in channel_out =>
                  length channel_out = length channel_in
                  /\ forall i,
                       nth_error channel_out i <> nth_error channel_in i ->
                       exists mask,
                         outlier_mask channel_in w threshold = Some mask
                         /\ nth i mask false = true)
               (channels audio) (channels out).
Proof.
  unfold process_file.
  destruct (validate_window window_size) as (msgs, [w |]); [| discriminate].
  destruct (sample_rate =? 0)%Z; [discriminate |].
  destruct (declick interp1d audio sample_rate w threshold max_length)
    as [((msgs', audio'), total) |] eqn:Hdeclick; [| discriminate].
  destruct (save_stage env audio' sample_rate total) as (saved, written) eqn:Hsave.
  intros H. injection H as _ ->.
  assert (out = audio') as ->
    by (apply (@save_stage_buffer env audio' out sample_rate total);
        rewrite Hsave; reflexivity).
  clear Hsave. rename Hdeclick into H.
  exists w. split; [reflexivity |].
  unfold declick in H. destruct audio as [a | frames].
  - destruct (detect_clicks a sample_rate w threshold max_length) as [regions |] eqn:Hd;
      [| discriminate].
    injection H as _ <- _. split; [exact I |].
    simpl. constructor; [| constructor].
    apply (declick_channel interp1d _ _ _ _ _ Hd).
  - destruct (detect_clicks (map fst frames) sample_rate w threshold max_length)
      as [left |] eqn:Hl; [| discriminate].
    destruct (detect_clicks (map snd frames) sample_rate w threshold max_length)
      as [right |] eqn:Hr; [| discriminate].
    injection H as _ <- _. split; [exact I |].
    destruct (declick_channel interp1d _ _ _ _ _ Hl) as (Hll & Hlc).
    destruct (declick_channel interp1d _ _ _ _ _ Hr) as (Hrl & Hrc).
    destruct (combine_channels
                (interpolate_clicks interp1d (map fst frames) left)
                (interpolate_clicks interp1d (map snd frames) right)) as (Hfst & Hsnd).
    { rewrite Hll, Hrl, !length_map. reflexivity. }
    simpl. rewrite Hfst, Hsnd.
    constructor; [split; assumption |].
    constructor; [split; assumption | constructor].
Qed.

Lemma process_file_changes_outliers_only_witness :
  exists w,
    snd (validate_window 8) = Some w
    /\ same_layout (Mono burst_signal)
                   (Mono (interpolate_clicks sample_interp1d burst_signal [(10, 18)]))
    /\ Forall2 (fun channel_in channel_out =>
                  length channel_out = length channel_in
                  /\ forall i,
                       nth_error channel_out i <> nth_error channel_in i ->
                       exists mask,
                         outlier_mask channel_in w five = Some mask
                         /\ nth i mask false = true)
               (channels (Mono burst_signal))
               (channels (Mono (interpolate_clicks sample_interp1d burst_signal
                                                   [(10, 18)]))).
Proof.
  apply (@process_file_changes_outliers_only sample_interp1d wav_output 8 five 8
           (Mono burst_signal) 44100
           (fst (process_file sample_interp1d wav_output (Some (8%Z, five, 8%Z))
                              (Some (Mono burst_signal, 44100%Z))))).
  vm_compute. reflexivity.
Defined.

(** ** Regions are corrected independently *)

Lemma splice_inside {A} (c values : list A) (lo m i : nat) :
  lo <= length c -> lo <= i ->
  nth_error (firstn lo c ++ values ++ skipn (lo + m) c) i
  = nth_error (values ++ skipn (lo + m) c) (i - lo).
Proof.
  intros Hlo Hi.
  rewrite nth_error_app2 by (rewrite length_firstn; lia).
  rewrite length_firstn, Nat.min_l by lia. reflexivity.
Qed.

(** What a slice assignment stores inside the slice depends on the values
    and on the length of the buffer only. *)
Lemma slice_assign_same_values (c1 c2 c1' values : list F32.t) (start stop : nat) :
  length c2 = length c1 ->
  slice_assign c1 start stop values = Some c1' ->
  exists c2',
    slice_assign c2 start stop values = Some c2'
    /\ forall i, inside i (start, stop) -> nth_error c2' i = nth_error c1' i.
Proof.
  unfold slice_assign, inside. simpl. intros Hlen. rewrite Hlen.
  set (n := length c1). set (lo := Nat.min start n). set (m := Nat.min stop n - lo).
  assert (Hsame : forall v : list F32.t, length v = m ->
            forall i, start <= i < stop ->
              nth_error (firstn lo c2 ++ v ++ skipn (lo + m) c2) i
              = nth_error (firstn lo c1 ++ v ++ skipn (lo + m) c1) i).
  { intros v Hv i Hi. destruct (Nat.lt_ge_cases i n) as [Hn | Hn].
    - rewrite !splice_inside by (unfold lo, n in *; lia).
      rewrite !nth_error_app1 by (unfold lo, m, n in *; lia). reflexivity.
    - transitivity (@None F32.t); [| symmetry]; apply nth_error_None;
        rewrite splice_length; unfold lo, m, n in *; lia. }
  destruct (Nat.eqb (length values) m) eqn:Hv.
  - intros H. injection H as <-. eexists. split; [reflexivity |].
    apply Hsame. apply Nat.eqb_eq. exact Hv.
  - destruct (Nat.eqb (length values) 1); [| discriminate].
    intros H. injection H as <-. eexists. split; [reflexivity |].
    apply Hsame. apply repeat_length.
Qed.

Section Independence.

Variable interp1d :
  interp_kind -> list nat -> list F32.t -> list nat -> option (list F32.t).

Lemma try_fit_same_values (kind : interp_kind) (audio c1 c2 : list F32.t)
      (r : nat * nat) (i : nat) :
  length c2 = length c1 -> inside i r -> nth_error c2 i = nth_error c1 i ->
  match try_fit interp1d kind audio c1 r, try_fit interp1d kind audio c2 r with
  | Some c1', Some c2' => nth_error c2' i = nth_error c1' i
  | None, None => True
  | _, _ => False
  end.
Proof.
  intros Hlen Hi Hsame. unfold try_fit.
  destruct (interp1d kind _ _ _) as [values |]; [| exact I].
  destruct r as (start, stop). simpl.
  destruct (slice_assign c1 start stop values) as [c1' |] eqn:H1.
  - destruct (@slice_assign_same_values c1 c2 c1' values start stop Hlen H1)
      as (c2' & -> & Hv).
    apply Hv. exact Hi.
  - destruct (slice_assign c2 start stop values) as [c2' |] eqn:H2; [| exact I].
    destruct (@slice_assign_same_values c2 c1 c2' values start stop (eq_sym Hlen) H2)
      as (c1' & H1' & _).
    congruence.
Qed.

Lemma interpolate_one_same_values (audio c1 c2 : list F32.t) (r : nat * nat) (i : nat) :
  length c2 = length c1 -> inside i r -> nth_error c2 i = nth_error c1 i ->
  nth_error (interpolate_one interp1d audio c2 r) i
  = nth_error (interpolate_one interp1d audio c1 r) i.
Proof.
  intros Hlen Hi Hsame. unfold interpolate_one.
  destruct (length (x_points (length audio) r) <? 2); [exact Hsame |].
  pose proof (@try_fit_same_values Cubic audio c1 c2 r i Hlen Hi Hsame) as Hc.
  destruct (try_fit interp1d Cubic audio c1 r), (try_fit interp1d Cubic audio c2 r);
    try contradiction; [exact Hc |].
  pose proof (@try_fit_same_values Linear audio c1 c2 r i Hlen Hi Hsame) as Hl.
  destruct (try_fit interp1d Linear audio c1 r), (try_fit interp1d Linear audio c2 r);
    try contradiction; [exact Hl | exact Hsame].
Qed.

(** A sample that lies in one region only gets the value it would get if
    that region were corrected alone. *)
Lemma interpolate_region_alone (audio : list F32.t) (before after : list (nat * nat))
      (r : nat * nat) (i : nat) :
  inside i r ->
  (forall r', In r' (before ++ after) -> ~ inside i r') ->
  nth_error (interpolate_clicks interp1d audio (before ++ r :: after)) i
  = nth_error (interpolate_one interp1d audio audio r) i.
Proof.
  intros Hi Hothers. rewrite interpolate_clicks_app. simpl.
  set (c := interpolate_clicks interp1d audio before).
  rewrite (proj2 (fold_interpolate_frame interp1d audio after _))
    by (intros r' Hr'; apply Hothers, in_or_app; right; exact Hr').
  destruct (fold_interpolate_frame interp1d audio before audio) as (Hlen & Hnth).
  apply interpolate_one_same_values; [exact Hlen | exact Hi |].
  apply Hnth. intros r' Hr'. apply Hothers, in_or_app. left. exact Hr'.
Qed.

(** X5.  When no sample lies in two regions of the list, the order in which
    the regions are corrected does not matter: every permutation of the
    list gives the same buffer.  (The support points are read from the
    original buffer, never from the buffer being corrected.) *)
Theorem interpolate_clicks_order_irrelevant
        (audio : list F32.t) (regions regions' : list (nat * nat)) :
  NoDup regions ->
  (forall r1 r2 i, In r1 regions -> In r2 regions ->
                   inside i r1 -> inside i r2 -> r1 = r2) ->
  Permutation regions regions' ->
  interpolate_clicks interp1d audio regions' = interpolate_clicks interp1d audio regions.
Proof.
  intros Hnodup Hdisjoint Hperm.
  assert (Halone : forall l, NoDup l ->
            (forall r1 r2 i, In r1 l -> In r2 l -> inside i r1 -> inside i r2 -> r1 = r2) ->
            forall r i, In r l -> inside i r ->
              nth_error (interpolate_clicks interp1d audio l) i
              = nth_error (interpolate_one interp1d audio audio r) i).
  { intros l Hnd Hdis r i Hr Hi.
    destruct (in_split r l Hr) as (before & after & ->).
    apply interpolate_region_alone; [exact Hi |].
    intros r' Hr' Hi'.
    apply (NoDup_remove_2 _ _ _ Hnd).
    assert (r' = r); [| subst; exact Hr'].
    apply (Hdis r' r i); try assumption.
    apply in_app_or in Hr'. apply in_or_app.
    destruct Hr'; [left | right; right]; assumption. }
  apply nth_error_ext. intros i.
  destruct (Exists_dec (inside i) regions (inside_dec i)) as [Hex | Hnone].
  - apply Exists_exists in Hex. destruct Hex as (r & Hr & Hi).
    rewrite (Halone regions Hnodup Hdisjoint r i Hr Hi).
    apply Halone; [| | apply (Permutation_in _ Hperm Hr) | exact Hi].
    + apply (Permutation_NoDup Hperm Hnodup).
    + intros r1 r2 k H1 H2. apply Hdisjoint;
        apply (Permutation_in _ (Permutation_sym Hperm)); assumption.
  - assert (Hfree : forall l, (forall r, In r l -> In r regions) ->
              nth_error (interpolate_clicks interp1d audio l) i = nth_error audio i).
    { intros l Hl. apply (proj2 (fold_interpolate_frame interp1d audio l audio)).
      intros r Hr Hi. apply Hnone. apply Exists_exists. exists r.
      split; [apply Hl; exact Hr | exact Hi]. }
    rewrite (Hfree regions) by auto.
    apply Hfree. intros r Hr. apply (Permutation_in _ (Permutation_sym Hperm) Hr).
Qed.

End Independence.

Lemma interpolate_clicks_order_irrelevant_witness :
  interpolate_clicks sample_interp1d burst_signal [(17, 18); (3, 5); (10, 12)]
  = interpolate_clicks sample_interp1d burst_signal [(3, 5); (10, 12); (17, 18)].
Proof.
  apply (@interpolate_clicks_order_irrelevant sample_interp1d burst_signal
           [(3, 5); (10, 12); (17, 18)] [(17, 18); (3, 5); (10, 12)]).
  - repeat constructor; simpl; intuition discriminate.
  - intros r1 r2 i H1 H2 Hi1 Hi2. unfold inside in *. simpl in *.
    destruct H1 as [<- | [<- | [<- | []]]], H2 as [<- | [<- | [<- | []]]];
      simpl in *; try reflexivity; lia.
  - apply Permutation_sym, Permutation_cons_append.
Defined.

(** ** Support points *)

Lemma py_slice_nat {A} (a : list A) (i j : nat) :
  py_slice a (Z.of_nat i) (Z.of_nat j)
  = firstn (Nat.min j (length a) - Nat.min i (length a))
           (skipn (Nat.min i (length a)) a).
Proof.
  unfold py_slice, py_index.
  replace (Z.of_nat i <? 0)%Z with false by (symmetry; apply Z.ltb_ge; lia).
  replace (Z.of_nat j <? 0)%Z with false by (symmetry; apply Z.ltb_ge; lia).
  f_equal; [| f_equal]; lia.
Qed.

Lemma py_slice_nat_length {A} (a : list A) (i j : nat) :
  length (py_slice a (Z.of_nat i) (Z.of_nat j))
  = Nat.min j (length a) - Nat.min i (length a).
Proof. rewrite py_slice_nat, length_firstn, length_skipn. lia. Qed.

Lemma py_slice_nat_nth {A} (a : list A) (i j k : nat) (d : A) :
  k < Nat.min j (length a) - Nat.min i (length a) ->
  nth k (py_slice a (Z.of_nat i) (Z.of_nat j)) d = nth (Nat.min i (length a) + k) a d.
Proof.
  intros Hk. rewrite py_slice_nat, nth_firstn.
  replace (k <? _) with true by (symmetry; apply Nat.ltb_lt; exact Hk).
  apply nth_skipn.
Qed.

(** X6.  For a region that starts inside the buffer (or at its end), the
    support points of the interpolation are well formed: there are
    [min(start, 5)] of them before the region and [min(len - end, 5)]
    after it, [y_points] has one value for each index of [x_points], and
    each index is a valid sample index outside the region, at most 5
    samples before its start or less than 5 samples after its end, whose
    value is the original sample. *)
Theorem support_points_well_formed (audio : list F32.t) (r : nat * nat) :
  fst r <= length audio ->
  let xs := x_points (length audio) r in
  let ys := y_points audio r in
  length xs = Nat.min (fst r) context + Nat.min (length audio - snd r) context
  /\ length ys = length xs
  /\ forall k, k < length xs ->
       let x := nth k xs 0 in
       x < length audio
       /\ ~ inside x r
       /\ (x < fst r <= x + context \/ snd r <= x < snd r + context)
       /\ nth k ys F32.zero = nth x audio F32.zero.
Proof.
  destruct r as (start, stop). unfold x_points, y_points, inside, context.
  simpl. intros Hstart.
  set (n := length audio) in *.
  assert (Hpre : length (seq (start - 5) (start - (start - 5))) = Nat.min start 5)
    by (rewrite length_seq; lia).
  assert (Hpost : length (seq stop (Nat.min n (stop + 5) - stop)) = Nat.min (n - stop) 5)
    by (rewrite length_seq; lia).
  assert (Hypre : length (py_slice audio (Z.of_nat (start - 5)) (Z.of_nat start))
                  = Nat.min start 5)
    by (rewrite py_slice_nat_length; fold n; lia).
  assert (Hypost : length (py_slice audio (Z.of_nat stop) (Z.of_nat (Nat.min n (stop + 5))))
                   = Nat.min (n - stop) 5)
    by (rewrite py_slice_nat_length; fold n; lia).
  split; [rewrite length_app; lia |].
  split; [rewrite !length_app; lia |].
  intros k Hk. rewrite length_app, Hpre, Hpost in Hk.
  destruct (Nat.lt_ge_cases k (Nat.min start 5)) as [Hin | Hout].
  - rewrite !app_nth1 by lia.
    rewrite seq_nth by lia.
    rewrite py_slice_nat_nth by (fold n; lia). fold n.
    split; [lia |]. split; [lia |]. split; [left; lia |]. f_equal. lia.
  - rewrite !app_nth2 by lia. rewrite Hpre, Hypre.
    rewrite seq_nth by lia.
    rewrite py_slice_nat_nth by (fold n; lia). fold n.
    split; [lia |]. split; [lia |]. split; [right; lia |]. f_equal. lia.
Qed.

Lemma support_points_well_formed_witness :
  let xs := x_points (length burst_signal) (1, 26) in
  let ys := y_points burst_signal (1, 26) in
  length xs = Nat.min (fst (1, 26)) context
              + Nat.min (length burst_signal - snd (1, 26)) context
  /\ length ys = length xs
  /\ forall k, k < length xs ->
       let x := nth k xs 0 in
       x < length burst_signal
       /\ ~ inside x (1, 26)
       /\ (x < fst (1, 26) <= x + context \/ snd (1, 26) <= x < snd (1, 26) + context)
       /\ nth k ys F32.zero = nth x burst_signal F32.zero.
Proof.
  apply (@support_points_well_formed burst_signal (1, 26)).
  vm_compute. repeat constructor.
Defined.

(** ** File names *)

Lemma str_eqb_eq (a b : list ascii) : str_eqb a b = true <-> a = b.
Proof.
  revert b. induction a as [| x a IH]; intros [| y b]; simpl;
    try (split; [discriminate | discriminate]); [tauto |].
  rewrite andb_true_iff, Ascii.eqb_eq, IH.
  split; [intros [-> ->]; reflexivity | intros H; inversion H; auto].
Qed.

Lemma str_eqb_refl (a : list ascii) : str_eqb a a = true.
Proof. apply str_eqb_eq. reflexivity. Qed.

Lemma endswith_app (s tag : list ascii) : endswith (s ++ tag) tag = true.
Proof.
  unfold endswith. rewrite length_app.
  replace (length tag <=? length s + length tag) with true
    by (symmetry; apply Nat.leb_le; lia).
  replace (length s + length tag - length tag) with (length s) by lia.
  rewrite skipn_app, skipn_all, Nat.sub_diag. simpl. apply str_eqb_refl.
Qed.

Lemma endswith_split (s ext : list ascii) :
  endswith s ext = true -> exists p, s = p ++ ext.
Proof.
  unfold endswith. intros H. apply andb_true_iff in H as [_ H].
  apply str_eqb_eq in H. exists (firstn (length s - length ext) s).
  rewrite <- H at 1. symmetry. rewrite H. rewrite <- H at 2.
  apply firstn_skipn.
Qed.

Lemma rfind_from_app (c : ascii) (a b : list ascii) (i last : Z) :
  rfind_from c (a ++ b) i last
  = rfind_from c b (i + Z.of_nat (length a)) (rfind_from c a i last).
Proof.
  revert i last. induction a as [| x a IH]; intros i last; simpl length.
  - simpl. f_equal. lia.
  - simpl app. simpl rfind_from. rewrite IH. f_equal. lia.
Qed.

Lemma rfind_from_dotless (s : list ascii) (i last : Z) :
  dotless s = true -> rfind_from "." s i last = last.
Proof.
  revert i last. induction s as [| x s IH]; intros i last H; [reflexivity |].
  simpl in H. apply andb_true_iff in H as [Hx Hs].
  simpl. rewrite (IH _ _ Hs). apply negb_true_iff in Hx. rewrite Hx. reflexivity.
Qed.

Lemma rfind_last_dot (p e : list ascii) :
  dotless e = true -> rfind "." (p ++ "."%char :: e) = Z.of_nat (length p).
Proof.
  intros He. unfold rfind. rewrite rfind_from_app. simpl.
  apply rfind_from_dotless. exact He.
Qed.

Lemma dotless_app (a b : list ascii) :
  dotless (a ++ b) = dotless a && dotless b.
Proof. apply forallb_app. Qed.

(** A name [p.e] with a non-empty [p] and a non-empty [e] without period
    splits into stem [p] and suffix [.e]. *)
Lemma path_split_ext (p e : list ascii) :
  p <> [] -> e <> [] -> dotless e = true ->
  path_stem (p ++ "."%char :: e) = p
  /\ path_suffix (p ++ "."%char :: e) = "."%char :: e.
Proof.
  intros Hp He Hd. unfold path_stem, path_suffix, splits_at_dot.
  rewrite (rfind_last_dot p e Hd). cbv zeta.
  assert (Hlp : 0 < length p) by (destruct p; [congruence | simpl; lia]).
  assert (Hle : 0 < length e) by (destruct e; [congruence | simpl; lia]).
  rewrite length_app. simpl length.
  replace (0 <? Z.of_nat (length p))%Z with true
    by (symmetry; apply Z.ltb_lt; lia).
  replace (Z.of_nat (length p) <? Z.of_nat (length p + S (length e)) - 1)%Z
    with true by (symmetry; apply Z.ltb_lt; lia).
  simpl andb. cbv iota.
  change 0%Z with (Z.of_nat 0).
  rewrite !py_slice_nat. rewrite length_app. simpl length.
  split.
  - replace (Nat.min (length p) (length p + S (length e)) - Nat.min 0 _)
      with (length p) by lia.
    replace (Nat.min 0 (length p + S (length e))) with 0 by lia.
    rewrite skipn_O, firstn_app, firstn_all, Nat.sub_diag. simpl.
    apply app_nil_r.
  - replace (Nat.min (length p + S (length e)) (length p + S (length e))
             - Nat.min (length p) (length p + S (length e)))
      with (S (length e)) by lia.
    replace (Nat.min (length p) (length p + S (length e))) with (length p) by lia.
    rewrite skipn_app, skipn_all, Nat.sub_diag. simpl skipn. simpl app.
    change (S (length e)) with (length ("."%char :: e)). apply firstn_all.
Qed.

(** A name whose only period is the leading one has no suffix. *)
Lemma path_split_hidden (e : list ascii) :
  dotless e = true ->
  path_stem ("."%char :: e) = "."%char :: e /\ path_suffix ("."%char :: e) = [].
Proof.
  intros Hd. unfold path_stem, path_suffix, splits_at_dot.
  pose proof (rfind_last_dot [] e Hd) as Hr. simpl in Hr. rewrite Hr.
  split; reflexivity.
Qed.

Lemma is_extension_inv (ext : list ascii) :
  is_extension ext = true ->
  exists e, ext = "."%char :: e /\ e <> [] /\ dotless e = true.
Proof.
  destruct ext as [| c e]; [discriminate |]. simpl.
  rewrite !andb_true_iff, Ascii.eqb_eq, negb_true_iff, Nat.eqb_neq.
  intros [[-> Hlen] Hd]. exists e. repeat split; [| exact Hd].
  intros ->. apply Hlen. reflexivity.
Qed.

Lemma extension_not_original (ext : list ascii) :
  is_extension ext = true -> str_eqb ext Lit.original = false.
Proof.
  intros H. destruct (is_extension_inv _ H) as (e & -> & _). reflexivity.
Qed.

(** The name written for an input that was found by its extension is
    dropped by the filter with the same tag. *)
Lemma tagged_output_name_stem (tag input_ext output_format file_name : list ascii) :
  tag <> [] -> dotless tag = true ->
  is_extension input_ext = true ->
  endswith file_name input_ext = true ->
  output_format = Lit.original \/ is_extension output_format = true ->
  endswith (path_stem (tagged_output_name tag output_format file_name)) tag = true.
Proof.
  intros Htag Hdt Hin Hends Hfmt. unfold tagged_output_name, output_ext_of.
  assert (Hne : forall s, s ++ tag <> []).
  { intros s Hs. apply app_eq_nil in Hs. tauto. }
  destruct Hfmt as [-> | Hout].
  - change (str_eqb Lit.original Lit.original) with true. cbv iota.
    destruct (is_extension_inv _ Hin) as (e & -> & He & Hd).
    destruct (endswith_split _ _ Hends) as (p & ->).
    destruct p as [| c p].
    + change ([] ++ "."%char :: e) with ("."%char :: e).
      destruct (path_split_hidden e Hd) as [-> ->].
      rewrite app_nil_r. change (("."%char :: e) ++ tag) with ("."%char :: (e ++ tag)).
      assert (Hd' : dotless (e ++ tag) = true)
        by (rewrite dotless_app, Hd, Hdt; reflexivity).
      destruct (path_split_hidden (e ++ tag) Hd') as [-> _].
      apply (endswith_app ("."%char :: e) tag).
    + assert (Hp : c :: p <> []) by discriminate.
      destruct (@path_split_ext (c :: p) e Hp He Hd) as [-> ->].
      rewrite app_assoc.
      destruct (@path_split_ext _ e (Hne (c :: p)) He Hd) as [-> _].
      apply endswith_app.
  - rewrite (extension_not_original _ Hout).
    destruct (is_extension_inv _ Hout) as (e & -> & He & Hd).
    rewrite app_assoc.
    destruct (@path_split_ext _ e (Hne (path_stem file_name)) He Hd) as [-> _].
    apply endswith_app.
Qed.

Lemma not_yet_processed_outputs (tag input_ext output_format : list ascii)
      (files : list (list ascii)) :
  tag <> [] -> dotless tag = true ->
  is_extension input_ext = true ->
  forallb (fun f => endswith f input_ext) files = true ->
  output_format = Lit.original \/ is_extension output_format = true ->
  not_yet_processed tag (map (tagged_output_name tag output_format) files) = [].
Proof.
  intros Htag Hdt Hin Hfiles Hfmt. unfold not_yet_processed.
  induction files as [| f files IH]; [reflexivity |].
  simpl in Hfiles. apply andb_true_iff in Hfiles as [Hf Hrest].
  simpl. rewrite (@tagged_output_name_stem tag input_ext output_format f Htag Hdt Hin Hf Hfmt). simpl.
  apply IH. exact Hrest.
Qed.

(** X7.  Files written by one run are never picked up by a later one: when the
    input files are those whose name ends with the extension [input_ext]
    and the output format is ["original"] or an extension, each of the
    names [stem_declick.ext] written by the click remover is removed by
    the filter of its [process_files], and each of the names
    [stem_trimmed.ext] written by the trimmer by the filter of the
    trimmer's. *)
Theorem outputs_are_not_processed_again (input_ext output_format : list ascii)
        (files : list (list ascii)) :
  is_extension input_ext = true ->
  forallb (fun f => endswith f input_ext) files = true ->
  output_format = Lit.original \/ is_extension output_format = true ->
  declick_input_files (map (declick_output_name output_format) files) = []
  /\ trimmed_input_files (map (trimmed_output_name output_format) files) = [].
Proof.
  intros Hin Hfiles Hfmt. split.
  - apply (@not_yet_processed_outputs Lit.declick input_ext); auto; discriminate.
  - apply (@not_yet_processed_outputs Lit.trimmed input_ext); auto; discriminate.
Qed.

Lemma outputs_are_not_processed_again_witness :
  declick_input_files
    (map (declick_output_name Lit.original)
         [Names.side_a_wav; Names.dot_wav; Names.live_1974_wav]) = []
  /\ trimmed_input_files
       (map (trimmed_output_name Lit.original)
            [Names.side_a_wav; Names.dot_wav; Names.live_1974_wav]) = [].
Proof.
  apply (@outputs_are_not_processed_again Lit.wav Lit.original
           [Names.side_a_wav; Names.dot_wav; Names.live_1974_wav]);
    [reflexivity | reflexivity | left; reflexivity].
Defined.

(** ** The output name of the converter *)

Lemma str_inj (i j : nat) : str i = str j -> i = j.
Proof.
  unfold str. intros H.
  apply (f_equal String.string_of_list_ascii) in H.
  rewrite !String.string_of_list_ascii_of_string in H.
  apply (f_equal DecimalString.NilEmpty.uint_of_string) in H.
  rewrite !DecimalString.NilEmpty.usu in H. injection H as H.
  apply (f_equal Nat.of_uint) in H.
  rewrite !DecimalNat.Unsigned.of_to in H. exact H.
Qed.

Lemma candidate_inj (stem ext : list ascii) : Injective (candidate stem ext).
Proof.
  intros i j H. unfold candidate, Converter.numbered_name in H.
  destruct i as [| i], j as [| j]; [reflexivity | | |].
  - apply app_inv_head in H. apply (f_equal (@length ascii)) in H.
    simpl in H. rewrite length_app in H. lia.
  - apply app_inv_head in H. apply (f_equal (@length ascii)) in H.
    simpl in H. rewrite length_app in H. lia.
  - apply app_inv_head in H. simpl in H. injection H as H.
    apply app_inv_tail in H. apply str_inj. exact H.
Qed.

Lemma listed_in (dir : list (list ascii)) (name : list ascii) :
  listed dir name = true <-> In name dir.
Proof.
  unfold listed. rewrite existsb_exists. split.
  - intros (x & Hx & Heq). apply str_eqb_eq in Heq. subst. exact Hx.
  - intros H. exists name. split; [exact H | apply str_eqb_refl].
Qed.

Section ConvertFileFacts.

Variable path_exists : list ascii -> bool.
Variables stem ext : list ascii.

(** The loop tests the candidates in order and stops at the first one
    that does not exist. *)
Lemma free_name_first_free (d j fuel : nat) :
  (forall i, j <= i < j + d -> path_exists (candidate stem ext i) = true) ->
  path_exists (candidate stem ext (j + d)) = false ->
  d < fuel ->
  Converter.free_name path_exists fuel stem ext (candidate stem ext j) (S j)
  = Some (candidate stem ext (j + d), S (j + d)).
Proof.
  revert j fuel. induction d as [| d IH]; intros j fuel Hbusy Hfree Hfuel;
    (destruct fuel as [| fuel]; [lia |]); simpl.
  - rewrite Nat.add_0_r in *. rewrite Hfree. reflexivity.
  - rewrite (Hbusy j) by lia.
    change (Converter.numbered_name stem ext (S j)) with (candidate stem ext (S j)).
    replace (j + S d) with (S j + d) in * by lia.
    apply IH; [intros i Hi; apply Hbusy; lia | exact Hfree | lia].
Qed.

(** Below a free candidate there is a first free one. *)
Lemma first_free_candidate (k : nat) :
  path_exists (candidate stem ext k) = false ->
  exists j, j <= k
    /\ path_exists (candidate stem ext j) = false
    /\ forall i, i < j -> path_exists (candidate stem ext i) = true.
Proof.
  induction k as [k IH] using lt_wf_ind. intros Hk.
  destruct (forallb (fun i => path_exists (candidate stem ext i)) (seq 0 k))
    eqn:Hall.
  - exists k. split; [lia |]. split; [exact Hk |].
    intros i Hi. rewrite forallb_forall in Hall. apply Hall.
    apply in_seq. lia.
  - assert (Hex : exists i, i < k /\ path_exists (candidate stem ext i) = false).
    { clear IH Hk. induction k as [| k IHk]; [discriminate |].
      rewrite seq_S, forallb_app in Hall. simpl in Hall.
      destruct (forallb _ (seq 0 k)) eqn:Hk.
      - exists k. split; [lia |].
        destruct (path_exists (candidate stem ext k)); [discriminate | reflexivity].
      - destruct (IHk eq_refl) as (i & Hi & Hf). exists i. split; [lia | exact Hf]. }
    destruct Hex as (i & Hi & Hf).
    destruct (IH i Hi Hf) as (j & Hj & Hjf & Hjb).
    exists j. split; [lia |]. split; assumption.
Qed.

(** A directory with [n] entries cannot hold the [n + 1] candidates
    [0 .. n]. *)
Lemma some_candidate_free (dir : list (list ascii)) :
  (forall name, path_exists name = true -> In name dir) ->
  exists k, k <= length dir /\ path_exists (candidate stem ext k) = false.
Proof.
  intros Hdir.
  destruct (forallb (fun i => path_exists (candidate stem ext i))
                    (seq 0 (S (length dir)))) eqn:Hall.
  - exfalso. rewrite forallb_forall in Hall.
    assert (Hincl : incl (map (candidate stem ext) (seq 0 (S (length dir)))) dir).
    { intros name Hname. apply in_map_iff in Hname as (i & <- & Hi).
      apply Hdir, Hall, Hi. }
    assert (Hnd : NoDup (map (candidate stem ext) (seq 0 (S (length dir))))).
    { apply Injective_map_NoDup; [apply candidate_inj | apply seq_NoDup]. }
    pose proof (NoDup_incl_length Hnd Hincl) as Hlen.
    rewrite length_map, length_seq in Hlen. lia.
  - assert (Hex : forall n, forallb (fun i => path_exists (candidate stem ext i))
                                    (seq 0 n) = false ->
                            exists i, i < n /\ path_exists (candidate stem ext i) = false).
    { induction n as [| n IHn]; [discriminate |].
      rewrite seq_S, forallb_app. simpl. intros H.
      destruct (forallb _ (seq 0 n)) eqn:Hn.
      - exists n. split; [lia |].
        destruct (path_exists (candidate stem ext n)); [discriminate | reflexivity].
      - destruct (IHn eq_refl) as (i & Hi & Hf). exists i. split; [lia | exact Hf]. }
    destruct (Hex _ Hall) as (i & Hi & Hf). exists i. split; [lia | exact Hf].
Qed.

End ConvertFileFacts.

(** X8.  The loop of [convert_file] that avoids duplicate file names
    terminates and never selects an existing file: if the names that exist
    in the output folder are among the entries of [dir], then after at
    most [length dir + 1] tests the loop stops with the first of the names
    [stem.ext], [stem_1.ext], [stem_2.ext], ... that does not exist; all
    earlier names exist, and the final counter is the number of tests
    made, so that "File exists, saving as" is logged exactly when the
    plain name [stem.ext] exists. *)
Theorem convert_file_output_name_is_first_free
        (path_exists : list ascii -> bool) (dir : list (list ascii))
        (stem ext : list ascii) (fuel : nat) :
  (forall name, path_exists name = true -> In name dir) ->
  length dir < fuel ->
  exists j,
    j <= length dir
    /\ Converter.output_path path_exists fuel stem ext
       = Some (candidate stem ext j, S j)
    /\ path_exists (candidate stem ext j) = false
    /\ (forall i, i < j -> path_exists (candidate stem ext i) = true)
    /\ (1 < S j <-> path_exists (stem ++ ext) = true).
Proof.
  intros Hdir Hfuel.
  destruct (some_candidate_free path_exists stem ext dir Hdir) as (k & Hk & Hfree).
  destruct (first_free_candidate path_exists stem ext k Hfree) as (j & Hj & Hjf & Hjb).
  exists j. split; [lia |]. split; [| split; [exact Hjf | split; [exact Hjb |]]].
  - unfold Converter.output_path.
    change (stem ++ ext) with (candidate stem ext 0).
    apply (@free_name_first_free path_exists stem ext j 0 fuel);
      [intros i Hi; apply Hjb; lia | exact Hjf | lia].
  - change (stem ++ ext) with (candidate stem ext 0). split.
    + intros H. apply Hjb. lia.
    + intros H. destruct j as [| j]; [congruence | lia].
Qed.

Lemma convert_file_output_name_is_first_free_witness :
  exists j,
    j <= length [Names.side_a_mp3; Names.side_b_mp3; Names.side_a_1_mp3]
    /\ Converter.output_path
         (listed [Names.side_a_mp3; Names.side_b_mp3; Names.side_a_1_mp3])
         4 Names.side_a Lit.mp3
       = Some (candidate Names.side_a Lit.mp3 j, S j)
    /\ listed [Names.side_a_mp3; Names.side_b_mp3; Names.side_a_1_mp3]
              (candidate Names.side_a Lit.mp3 j) = false
    /\ (forall i, i < j ->
          listed [Names.side_a_mp3; Names.side_b_mp3; Names.side_a_1_mp3]
                 (candidate Names.side_a Lit.mp3 i) = true)
    /\ (1 < S j <->
        listed [Names.side_a_mp3; Names.side_b_mp3; Names.side_a_1_mp3]
               (Names.side_a ++ Lit.mp3) = true).
Proof.
  apply (@convert_file_output_name_is_first_free
           (listed [Names.side_a_mp3; Names.side_b_mp3; Names.side_a_1_mp3])
           [Names.side_a_mp3; Names.side_b_mp3; Names.side_a_1_mp3]
           Names.side_a Lit.mp3 4).
  - intros name H. apply listed_in. exact H.
  - simpl. lia.
Defined.

(** ** The trimmer's ffmpeg arguments *)


